(** * HA-Dash web utilities: retrying fetch and status presenter

    A shallow embedding of [src/http/js/utils.js] ([fetchWithRetry], [sleep],
    [fetchJsonWithRetry], [showStatus]) together with the properties of the
    retry executor, the JSON wrapper and the status presenter.

    Modelling decisions.
    - JavaScript numbers are IEEE doubles.  Attempt counters and HTTP
      status codes are whole numbers in every use the repository makes of
      them and are kept in [Z].  The delays, the multiplier and the ceiling
      take part in the arithmetic of the backoff rule and are doubles
      ([Number.t]), with the operations that the standard library specifies
      for binary64; an integer literal where a double is expected stands for
      the double nearest to it.
    - The platform is an explicit environment: [fetch] is an oracle that
      says what the k-th physical call of one invocation yields (a response
      or a rejection), and the DOM is a finite map from element ids to
      elements.
    - Effects are recorded in order in a list of events; the caller-supplied
      [onRetry] hook is a transformer of the caller's own state.
    - The environment is taken to be live: every call of [fetch] settles,
      every timer fires, and the hook (typed as returning nothing) returns
      normally. *)

From Equations Require Import Equations.
From Stdlib Require SpecFloat.
From stdpp Require Import base strings pretty list gmap.

Open Scope Z_scope.
Set Warnings "-register-all".

(** ** Numbers *)

(** The numbers of the language are IEEE doubles: the operators are those of
    the IEEE specification of the standard library at precision 53, and the
    two conversions to text that [formatRetryMessage] relies on are modelled
    on the exact values. *)
Module Number.

Definition t := SpecFloat.spec_float.

(** The double nearest to an integer, ties to even; an infinity out of range. *)
Definition of_Z (z : Z) : t :=
  SpecFloat.binary_normalize 53 1024 z 0 false.

(** The operator [*]. *)
Definition mul (x y : t) : t := SpecFloat.SFmul 53 1024 x y.

(** The operator [/]. *)
Definition div (x y : t) : t := SpecFloat.SFdiv 53 1024 x y.

(** The operators [<] and [<=]; false when an operand is NaN. *)
Definition ltb (x y : t) : bool := SpecFloat.SFltb x y.
Definition leb (x y : t) : bool := SpecFloat.SFleb x y.
Definition le (x y : t) : Prop := leb x y = true.

(** [Math.min(x, y)]: NaN when an argument is NaN, and [-0] counts as less
    than [+0]. *)
Definition min (x y : t) : t :=
  match x, y with
  | SpecFloat.S754_nan, _ | _, SpecFloat.S754_nan => SpecFloat.S754_nan
  | SpecFloat.S754_zero sx, SpecFloat.S754_zero sy =>
      SpecFloat.S754_zero (sx || sy)
  | _, _ => if ltb y x then y else x
  end.

(** A finite double: a zero, or a mantissa and an exponent in the ranges of
    the format; neither NaN nor an infinity. *)
Definition finite (x : t) : bool :=
  match x with
  | SpecFloat.S754_zero _ => true
  | SpecFloat.S754_finite _ m e => SpecFloat.bounded 53 1024 m e
  | _ => false
  end.

(** The value of a finite double counted in units of 2^-1074, the least
    positive double: every finite double is a whole number of them. *)
Definition units (x : t) : Z :=
  match x with
  | SpecFloat.S754_finite s m e =>
      (if s then -1 else 1) * (Z.pos m * 2 ^ (e + 1074))
  | _ => 0
  end.

(** The number of decimal digits of a positive integer. *)
Definition digits10 (v : Z) : Z := Z.of_nat (String.length (pretty v)).

(** Number::toString on a positive integer [v] that is a double looks for the
    fewest digits k, with digits [s] and exponent [n], such that
    [s * 10^(n-k)] reads back as [v]; with several such [s], the closest. *)
Definition candidates (v k : Z) : list (Z * Z) :=
  n ← [digits10 v; digits10 v + 1];
  s ← [v / 10 ^ (n - k); v / 10 ^ (n - k) + 1];
  if bool_decide (k <= n) && bool_decide (10 ^ (k - 1) <= s < 10 ^ k)
     && SpecFloat.SFeqb (of_Z (s * 10 ^ (n - k))) (of_Z v)
  then [(s, n)] else [].

Definition closest (v k : Z) (found : list (Z * Z)) : option (Z * Z) :=
  foldr (fun c best =>
           match best with
           | Some b =>
               if Z.abs (c.1 * 10 ^ (c.2 - k) - v) <? Z.abs (b.1 * 10 ^ (b.2 - k) - v)
               then Some c else Some b
           | None => Some c
           end) None found.

(** Seventeen digits always suffice for a double. *)
Fixpoint shortest (v k : Z) (more : nat) : Z * Z * Z :=
  match more with
  | O => (v, digits10 v, digits10 v)
  | S more' =>
      match closest v k (candidates v k) with
      | Some (s, n) => (s, n, k)
      | None => shortest v (k + 1) more'
      end
  end.

(** The digits, with zeros up to 21 places and an exponent beyond. *)
Definition positive_integer_to_string (v : Z) : string :=
  let '(s, n, k) := shortest v 1 17 in
  if n <=? 21
  then pretty s +:+ String.concat EmptyString (replicate (Z.to_nat (n - k)) "0")
  else
    match pretty s with
    | String d rest =>
        String d (if k =? 1 then EmptyString else "." +:+ rest)
        +:+ "e+" +:+ pretty (n - 1)
    | EmptyString => EmptyString
    end.

(** The value of a double that is an integer. *)
Definition magnitude (m : positive) (e : Z) : Z :=
  if 0 <=? e then Z.pos m * 2 ^ e else Z.pos m / 2 ^ (- e).

(** ToString of the double nearest to an integer: what [`${z}`] gives. *)
Definition to_string (z : Z) : string :=
  match of_Z z with
  | SpecFloat.S754_nan => "NaN"
  | SpecFloat.S754_infinity s => if s then "-Infinity" else "Infinity"
  | SpecFloat.S754_zero _ => "0"
  | SpecFloat.S754_finite s m e =>
      (if s then "-" else EmptyString)
      +:+ positive_integer_to_string (magnitude m e)
  end.

(** The integer n for which n / 10 is closest to [m * 2^e]; of two, the
    larger. *)
Definition nearest_tenths (m : positive) (e : Z) : Z :=
  if 0 <=? e then 10 * Z.pos m * 2 ^ e
  else (20 * Z.pos m + 2 ^ (- e)) / 2 ^ (1 - e).

(** One decimal place. *)
Definition tenths (n : Z) : string :=
  pretty (n / 10) +:+ "." +:+ pretty (n mod 10).

(** [x.toFixed(1)]: the sign, then ToString from 10^21 on and the nearest
    tenths below. *)
Definition toFixed1 (x : t) : string :=
  match x with
  | SpecFloat.S754_nan => "NaN"
  | SpecFloat.S754_infinity s => if s then "-Infinity" else "Infinity"
  | SpecFloat.S754_zero _ => "0.0"
  | SpecFloat.S754_finite s m e =>
      (if s then "-" else EmptyString)
      +:+ (if (0 <=? e) && (10 ^ 21 <=? Z.pos m * 2 ^ e)
           then positive_integer_to_string (Z.pos m * 2 ^ e)
           else tenths (nearest_tenths m e))
  end.

End Number.

(** An integer where a double is expected is the double nearest to it. *)
Coercion Number.of_Z : Z >-> Number.t.

(** Literals in pairs and lists are read at the type expected of them. *)
Arguments pair {A B} & _ _.
Arguments cons {A} & _ _.
Arguments Some {A} & _.

(** ** Values of the platform *)

(** What a JavaScript [throw] (or a rejected promise) carries: the value
    [undefined], or an error object with its [name] and [message]. *)
Inductive JsException :=
| JsUndefined
| JsError (name message : string).

(** Parsed JSON. *)
Inductive Json :=
| JNull
| JBool (b : bool)
| JNumber (n : Z)
| JString (s : string)
| JArray (items : list Json)
| JObject (fields : list (string * Json)).

(** The part of a Fetch [Response] that the utilities read: [status],
    [statusText], and what the method [json()] settles to. *)
Record Response := {
  status : Z;
  statusText : string;
  json : Json + JsException
}.

(** [response.ok]: the Fetch standard defines it as a status in the range
    200 to 299 inclusive. *)
Definition ok (response : Response) : bool :=
  (200 <=? status response) && (status response <=? 299).

(** A call of [fetch] resolves with a response or rejects (transport
    failure). *)
Inductive FetchOutcome :=
| Resolved (response : Response)
| Rejected (reason : JsException).

(** The second argument of [fetch]. *)
Definition RequestInit := list (string * string).

(** The observable effects, in the order they happen. *)
Inductive Event :=
| EvFetch (attempt : Z)            (* fetch(url, options) in iteration [attempt] *)
| EvOnRetry (attempt : Z) (delay : Number.t) (* onRetry(attempt, delay) *)
| EvSleep (ms : Number.t)          (* await sleep(ms) *)
| EvJson (response : Response).    (* response.json() *)

(** How an async function settles. *)
Inductive Completion (A : Type) :=
| Returned (value : A)
| Threw (error : JsException).
Arguments Returned {A} value.
Arguments Threw {A} error.

(** `new Error(`HTTP ${response.status}: ${response.statusText}`)` *)
Definition http_error (response : Response) : JsException :=
  JsError "Error"
    ("HTTP " +:+ pretty (status response) +:+ ": " +:+ statusText response).

Section Executor.

(** The caller's state, which the [onRetry] hook may update. *)
Context {W : Type}.

Definition Hook := Z -> Number.t -> W -> W.

(** [retryConfig]: every property is optional. *)
Record RetryConfig := {
  maxRetries : option Z;
  initialDelay : option Number.t;
  maxDelay : option Number.t;
  backoffMultiplier : option Number.t;
  onRetry : option Hook
}.

(** The result of running an async function: the events it caused, how it
    settled, and the caller's state afterwards. *)
Record Run (A : Type) := {
  events : list Event;
  outcome : Completion A;
  world : W
}.
Arguments events {A} _.
Arguments outcome {A} _.
Arguments world {A} _.

Definition after {A} (evs : list Event) (r : Run A) : Run A :=
  {| events := evs ++ events r; outcome := outcome r; world := world r |}.

(** [sleep(ms)]: a timer; its only effect is the wait itself. *)
Definition sleep (ms : Number.t) : list Event := [EvSleep ms].

(** How the [try] block of one iteration ends. *)
Inductive TryResult :=
| TryReturn (response : Response)   (* return response *)
| TryThrow (error : JsException)    (* an exception reaches the catch clause *)
| TryNormal (lastError : JsException). (* falls out of the block *)

(** Lines 33-46: the body of the [try] block, given what [fetch] yields. *)
Definition try_block (out : FetchOutcome) : TryResult :=
  match out with
  | Rejected reason => TryThrow reason
  | Resolved response =>
      if ok response then TryReturn response
      else if (400 <=? status response) && (status response <? 500)
      then TryThrow (http_error response)
      else TryNormal (http_error response)
  end.

(** How the [try]/[catch] statement of one iteration ends. *)
Inductive Control :=
| CtlReturn (response : Response)
| CtlBreak (lastError : JsException)
| CtlNext (lastError : JsException).

Section Loop.

(** The destructured configuration and the arguments of the call. *)
Variable (maxRetries' : Z).
Variables (maxDelay' backoffMultiplier' : Number.t).
Variable (onRetry' : option Hook).
Variable (fetch : string -> RequestInit -> nat -> FetchOutcome).
Variables (url : string) (options : RequestInit).

(** Lines 32-55: the [catch] clause receives whatever the [try] block
    throws, the 4xx error included. *)
Definition try_catch (attempt : Z) (out : FetchOutcome) : Control :=
  match try_block out with
  | TryReturn response => CtlReturn response
  | TryThrow error =>
      if attempt =? maxRetries' then CtlBreak error else CtlNext error
  | TryNormal lastError => CtlNext lastError
  end.

(** Line 66. *)
Definition nextDelay (delay : Number.t) : Number.t :=
  Number.min (Number.mul delay backoffMultiplier') maxDelay'.

(** Lines 58-67: the wait before the next attempt. *)
Definition backoff (attempt : Z) (delay : Number.t) (w : W)
    : list Event * Number.t * W :=
  if attempt <? maxRetries' then
    let '(notified, w') :=
      match onRetry' with
      | Some hook => ([EvOnRetry (attempt + 1) delay], hook (attempt + 1) delay w)
      | None => ([], w)
      end in
    (notified ++ sleep delay, nextDelay delay, w')
  else ([], delay, w).

(** Lines 31-71: the loop and the final [throw lastError].  [calls] is the
    number of calls of [fetch] made so far. *)
Equations? loop (attempt : Z) (delay : Number.t) (lastError : JsException)
    (calls : nat) (w : W) : Run Response
    by wf (Z.to_nat (maxRetries' + 1 - attempt)) lt :=
  loop attempt delay lastError calls w with Z_le_gt_dec attempt maxRetries' := {
    | right _ => {| events := []; outcome := Threw lastError; world := w |}
    | left _ =>
        match try_catch attempt (fetch url options calls) with
        | CtlReturn response =>
            {| events := [EvFetch attempt]; outcome := Returned response;
               world := w |}
        | CtlBreak error =>
            {| events := [EvFetch attempt]; outcome := Threw error;
               world := w |}
        | CtlNext error =>
            let '(waited, delay', w') := backoff attempt delay w in
            after (EvFetch attempt :: waited)
                  (loop (attempt + 1) delay' error (S calls) w')
        end }.
Proof. lia. Qed.

End Loop.

(** Lines 20-26: the destructuring of [retryConfig] with its defaults
    ([onRetry] defaults to [null]). *)
Definition maxRetries_of (retryConfig : RetryConfig) : Z :=
  default 3 (maxRetries retryConfig).
Definition initialDelay_of (retryConfig : RetryConfig) : Number.t :=
  default (Number.of_Z 1000) (initialDelay retryConfig).
Definition maxDelay_of (retryConfig : RetryConfig) : Number.t :=
  default (Number.of_Z 30000) (maxDelay retryConfig).
Definition backoffMultiplier_of (retryConfig : RetryConfig) : Number.t :=
  default (Number.of_Z 2) (backoffMultiplier retryConfig).

(** [fetchWithRetry(url, options, retryConfig)] *)
Definition fetchWithRetry (fetch : string -> RequestInit -> nat -> FetchOutcome)
    (url : string) (options : RequestInit) (retryConfig : RetryConfig)
    (w : W) : Run Response :=
  let maxRetries' := maxRetries_of retryConfig in
  let initialDelay' := initialDelay_of retryConfig in
  let maxDelay' := maxDelay_of retryConfig in
  let backoffMultiplier' := backoffMultiplier_of retryConfig in
  let onRetry' := onRetry retryConfig in
  loop maxRetries' maxDelay' backoffMultiplier' onRetry' fetch url options
       0 initialDelay' JsUndefined 0%nat w.

(** [fetchJsonWithRetry(url, options, retryConfig)]: [response.json()] is
    reached only when the awaited [fetchWithRetry] returned. *)
Definition fetchJsonWithRetry (fetch : string -> RequestInit -> nat -> FetchOutcome)
    (url : string) (options : RequestInit) (retryConfig : RetryConfig)
    (w : W) : Run Json :=
  let fetched := fetchWithRetry fetch url options retryConfig w in
  match outcome fetched with
  | Threw error =>
      {| events := events fetched; outcome := Threw error;
         world := world fetched |}
  | Returned response =>
      {| events := events fetched ++ [EvJson response];
         outcome := match json response with
                    | inl data => Returned data
                    | inr error => Threw error
                    end;
         world := world fetched |}
  end.

End Executor.

Arguments RetryConfig : clear implicits.
Arguments Run : clear implicits.
Arguments events {W A} _.
Arguments outcome {W A} _.
Arguments world {W A} _.

(** ** Observations on a run *)

(** The iterations in which [fetch] was called. *)
Definition fetch_attempts (evs : list Event) : list Z :=
  omap (fun ev => match ev with EvFetch a => Some a | _ => None end) evs.

(** The arguments of the calls of [onRetry]. *)
Definition retry_calls (evs : list Event) : list (Z * Number.t) :=
  omap (fun ev => match ev with EvOnRetry a d => Some (a, d) | _ => None end) evs.

(** The delays waited. *)
Definition waits (evs : list Event) : list Number.t :=
  omap (fun ev => match ev with EvSleep d => Some d | _ => None end) evs.

(** The responses whose body was parsed. *)
Definition parses (evs : list Event) : list Response :=
  omap (fun ev => match ev with EvJson r => Some r | _ => None end) evs.

(** The delays of [m] successive waits that start at [delay]. *)
Fixpoint delays (backoffMultiplier' maxDelay' : Number.t) (m : nat)
    (delay : Number.t) : list Number.t :=
  match m with
  | O => []
  | S m' => delay :: delays backoffMultiplier' maxDelay' m'
                       (nextDelay maxDelay' backoffMultiplier' delay)
  end.

(** ** The status presenter *)

Module Dom.

(** The part of an element that [showStatus] touches.  [classList] is the
    element's token list, in order. *)
Record Element := {
  textContent : string;
  classList : list string
}.

(** [document.getElementById] looks ids up in a finite map. *)
Abbreviation Document := (gmap string Element).

(** [classList.remove(...tokens)] *)
Definition classList_remove (tokens : list string) (l : list string) : list string :=
  filter (fun c => c ∉ tokens) l.

(** [classList.add(token)]: the token is appended unless it is there. *)
Definition classList_add (token : string) (l : list string) : list string :=
  if decide (token ∈ l) then l else l ++ [token].

(** The classes removed on line 109. *)
Definition status_classes : list string :=
  ["status-info"; "status-success"; "status-error"; "status-warning";
   "status-running"].

(** The object literal [classMap] of lines 112-118: its own properties. *)
Definition classMap : list (string * string) :=
  [("info", "status-info"); ("success", "status-success");
   ("running", "status-running"); ("error", "status-error");
   ("warning", "status-warning")].

(** The properties every object literal inherits from [Object.prototype]:
    functions, and the prototype object itself under [__proto__]. *)
Definition object_prototype_keys : list string :=
  ["constructor"; "toString"; "toLocaleString"; "valueOf"; "hasOwnProperty";
   "isPrototypeOf"; "propertyIsEnumerable"; "__proto__"; "__defineGetter__";
   "__defineSetter__"; "__lookupGetter__"; "__lookupSetter__"].

(** What the property access [classMap[type]] evaluates to. *)
Inductive Property :=
| PropString (s : string)   (* an own property of the literal *)
| PropInherited             (* a function or object of [Object.prototype] *)
| PropUndefined.

Fixpoint own_property (key : string) (o : list (string * string)) : option string :=
  match o with
  | [] => None
  | (k, v) :: o' => if decide (k = key) then Some v else own_property key o'
  end.

Definition get (o : list (string * string)) (key : string) : Property :=
  match own_property key o with
  | Some v => PropString v
  | None => if decide (key ∈ object_prototype_keys) then PropInherited
            else PropUndefined
  end.

(** [showStatus(elementId, message, type = 'info')].  It returns the
    document afterwards and the exception it ends with, if any: an
    inherited property is truthy, and its string form (the source text of
    a native function, or [[object Object]]) contains white space, which
    [classList.add] rejects before it changes the list. *)
Definition showStatus (doc : Document) (elementId message : string)
    (type : option string) : Document * option JsException :=
  let type := default "info" type in
  match doc !! elementId with
  | None => (doc, None)
  | Some element =>
      let removed := classList_remove status_classes (classList element) in
      match get classMap type with
      | PropString cls =>
          (<[elementId := {| textContent := message;
                             classList := classList_add cls removed |}]> doc,
           None)
      | PropInherited =>
          (<[elementId := {| textContent := message; classList := removed |}]> doc,
           Some (JsError "InvalidCharacterError" "token contains white space"))
      | PropUndefined =>
          (<[elementId := {| textContent := message; classList := removed |}]> doc,
           None)
      end
  end.

(** The recognized status classes active on an element. *)
Definition active_status (element : Element) : list string :=
  filter (fun c => c ∈ status_classes) (classList element).

End Dom.


(** ** Test data *)

(** A response with an empty JSON body. *)
Definition response_of (status : Z) (statusText : string) : Response :=
  {| status := status; statusText := statusText; json := inl JNull |}.

(** A hook that records its arguments. *)
Definition recorder : @Hook (list (Z * Number.t)) := fun attempt delay calls =>
  calls ++ [(attempt, delay)].

(** [retryConfig = { onRetry }]: everything else is left to its default. *)
Definition default_config {W} (hook : option (@Hook W)) : RetryConfig W :=
  {| maxRetries := None; initialDelay := None; maxDelay := None;
     backoffMultiplier := None; onRetry := hook |}.

(** The configuration that the status page passes. *)
Definition status_page_config {W} (hook : option (@Hook W)) : RetryConfig W :=
  {| maxRetries := Some 3; initialDelay := Some (Number.of_Z 1000);
     maxDelay := Some (Number.of_Z 10000);
     backoffMultiplier := Some (Number.of_Z 2); onRetry := hook |}.


(** A server that answers the k-th call with the k-th status of a list, and
    with [fallback] once the list is used up. *)
Definition answers (statuses : list Z) (fallback : Z)
    : string -> RequestInit -> nat -> FetchOutcome :=
  fun _ _ k => Resolved (response_of (nth k statuses fallback) EmptyString).

(** ** The shape of a run *)

(** The error that a failed attempt leaves in [lastError]: the reason of the
    rejection (line 49), or the error built for a response that is not [ok]
    (lines 42 and 46); none for an [ok] response. *)
Definition failure (out : FetchOutcome) : option JsException :=
  match out with
  | Rejected reason => Some reason
  | Resolved response =>
      if ok response then None else Some (http_error response)
  end.

(** The events of [k] failed attempts, each followed by its notification (when
    there is a hook) and its wait, from iteration [attempt] and delay [delay]
    on. *)
Fixpoint rounds {W} (onRetry' : option (@Hook W))
    (backoffMultiplier' maxDelay' : Number.t) (k : nat) (attempt : Z)
    (delay : Number.t) : list Event :=
  match k with
  | O => []
  | S k' =>
      EvFetch attempt
      :: match onRetry' with
         | Some _ => [EvOnRetry (attempt + 1) delay]
         | None => []
         end
      ++ EvSleep delay
      :: rounds onRetry' backoffMultiplier' maxDelay' k' (attempt + 1)
           (nextDelay maxDelay' backoffMultiplier' delay)
  end.

(** The caller's state once the hook, if any, has been called with each pair
    of a list in turn. *)
Definition notified {W} (onRetry' : option (@Hook W))
    (calls : list (Z * Number.t))
    (w : W) : W :=
  match onRetry' with
  | Some hook => foldl (fun w' call => hook call.1 call.2 w') w calls
  | None => w
  end.

(** The sum of a list of durations, each a whole number of units. *)
Definition total (durations : list Z) : Z := foldr Z.add 0 durations.

(** [formatRetryMessage(attempt, delay)], lines 131-133. *)
Definition formatRetryMessage (attempt : Z) (delay : Number.t) : string :=
  "Retrying (attempt " +:+ Number.to_string attempt +:+ ") in "
  +:+ Number.toFixed1 (Number.div delay (Number.of_Z 1000))
  +:+ "s...".

(** A check of every integer from [z] on, [count] of them. *)
Fixpoint check_from (check : Z -> bool) (count : nat) (z : Z) : bool :=
  match count with
  | O => true
  | S count' => check z && check_from check count' (z + 1)
  end.

(** The quotient [delay / 1000] is below 10^21 and its nearest tenths are
    within half a tenth of a second of [delay]. *)
Definition tenths_within (delay : Z) : bool :=
  match Number.div (Number.of_Z delay) (Number.of_Z 1000) with
  | SpecFloat.S754_zero _ => delay =? 0
  | SpecFloat.S754_finite false m e =>
      negb ((0 <=? e) && (10 ^ 21 <=? Z.pos m * 2 ^ e))
      && (Z.abs (100 * Number.nearest_tenths m e - delay) <=? 50)
  | _ => false
  end.

(** The text of an integer is its decimal numeral. *)
Definition decimal_text (z : Z) : bool :=
  String.eqb (Number.to_string z) (pretty z).

(** ** Values of parsed JSON in expressions *)

Module Js.

(** The two properties that the status page reads from the payload; no
    prototype defines either name. *)
Inductive Field := Status | Version.

Definition field_name (field : Field) : string :=
  match field with
  | Status => "status"
  | Version => "version"
  end.

(** The own property [key] of a parsed object. *)
Fixpoint own (key : string) (fields : list (string * Json)) : option Json :=
  match fields with
  | [] => None
  | (k, v) :: rest => if decide (k = key) then Some v else own key rest
  end.

(** [data.status] and [data.version]: reading a property of [null] throws;
    an object yields its own property or [undefined]; strings, numbers,
    booleans and arrays have no such property. *)
Definition get (data : Json) (field : Field) : option Json + JsException :=
  match data with
  | JNull =>
      inr (JsError "TypeError"
             ("Cannot read properties of null (reading '"
              +:+ field_name field +:+ "')"))
  | JObject fields => inl (own (field_name field) fields)
  | _ => inl None
  end.

(** The value as a condition; [None] is [undefined]. *)
Definition truthy (value : option Json) : bool :=
  match value with
  | None | Some JNull => false
  | Some (JBool b) => b
  | Some (JNumber n) => negb (n =? 0)
  | Some (JString text) =>
      match text with
      | EmptyString => false
      | String _ _ => true
      end
  | Some (JArray _) | Some (JObject _) => true
  end.

(** ToString.  An array joins the texts of its elements with commas, [null]
    elements giving nothing.  An object gives [[object Object]] through the
    inherited [toString], unless a property of its own hides that method:
    a parsed value is no function, so no conversion is left. *)
Fixpoint to_string (value : Json) : string + JsException :=
  match value with
  | JNull => inl "null"
  | JBool b => inl (if b then "true" else "false")
  | JNumber n => inl (Number.to_string n)
  | JString text => inl text
  | JArray items =>
      match
        (fix texts (items : list Json) : list string + JsException :=
           match items with
           | [] => inl []
           | item :: rest =>
               match match item with
                     | JNull => inl EmptyString
                     | _ => to_string item
                     end with
               | inr error => inr error
               | inl text =>
                   match texts rest with
                   | inr error => inr error
                   | inl others => inl (text :: others)
                   end
               end
           end) items
      with
      | inr error => inr error
      | inl texts => inl (String.concat "," texts)
      end
  | JObject fields =>
      match own "toString" fields with
      | Some _ =>
          inr (JsError "TypeError" "Cannot convert object to primitive value")
      | None => inl "[object Object]"
      end
  end.

End Js.

(** ** The status page *)

Module Page.

(** What a click on the retry button runs: [() => loadStatus()]. *)
Inductive Handler := Reload.

(** The elements that the page script creates and appends. *)
Inductive Child :=
| Span (text : string)
| Button (text className : string) (onclick : Handler).

Inductive ConsoleEntry :=
| Logged (text : string) (data : option Json)       (* console.log *)
| Failed (text : string) (error : JsException).     (* console.error *)

(** The page: the elements by id, the children appended to them since their
    text was last set, and the console. *)
Record State := {
  document : Dom.Document;
  children : gmap string (list Child);
  console : list ConsoleEntry
}.

Definition present (elementId : string) (p : State) : bool :=
  match document p !! elementId with
  | Some _ => true
  | None => false
  end.

(** [element.textContent = text]: the text replaces all the children. *)
Definition set_text (elementId text : string) (p : State) : State :=
  {| document :=
       alter (fun element =>
                {| Dom.textContent := text;
                   Dom.classList := Dom.classList element |})
             elementId (document p);
     children := delete elementId (children p);
     console := console p |}.

(** [element.className = ...], given as the tokens of the new value. *)
Definition set_className (elementId : string) (tokens : list string)
    (p : State) : State :=
  {| document :=
       alter (fun element =>
                {| Dom.textContent := Dom.textContent element;
                   Dom.classList := tokens |})
             elementId (document p);
     children := children p;
     console := console p |}.

(** [element.appendChild(child)] *)
Definition appendChild (elementId : string) (child : Child) (p : State) : State :=
  {| document := document p;
     children := <[elementId := default [] (children p !! elementId) ++ [child]]>
                   (children p);
     console := console p |}.

Definition log (entry : ConsoleEntry) (p : State) : State :=
  {| document := document p; children := children p;
     console := console p ++ [entry] |}.

(** [HADashUtils.showStatus] on the page: the assignment to [textContent]
    on line 106 removes the children of the target. *)
Definition showStatus (p : State) (elementId message : string)
    (type : option string) : State * option JsException :=
  ({| document := (Dom.showStatus (document p) elementId message type).1;
      children := if present elementId p then delete elementId (children p)
                  else children p;
      console := console p |},
   (Dom.showStatus (document p) elementId message type).2).

(** [HADashUtils.showStatus('server-status', value, value)]: with a target,
    the value becomes text when it is assigned to [textContent], and the
    same text is the key into [classMap]. *)
Definition showStatus_value (p : State) (value : Json)
    : State * option JsException :=
  if present "server-status" p then
    match Js.to_string value with
    | inr error => (p, Some error)
    | inl text => showStatus p "server-status" text (Some text)
    end
  else (p, None).

(** The [onRetry] function of lines 30-34. *)
Definition on_retry : @Hook State := fun attempt delay p =>
  let retryMsg := formatRetryMessage attempt delay in
  (showStatus (log (Logged ("Status load failed, " +:+ retryMsg) None) p)
     "server-status" retryMsg (Some "warning")).1.

(** What [on_retry] writes to the console. *)
Definition retry_entry (call : Z * Number.t) : ConsoleEntry :=
  Logged ("Status load failed, " +:+ formatRetryMessage call.1 call.2) None.

(** Lines 38-47: what follows the awaited call in the [try] block; the page
    reached, and the exception that ends the block early, if any. *)
Definition show_data (statusElement versionElement : bool) (data : Json)
    (p : State) : State * option JsException :=
  let '(p1, thrown) :=
    if statusElement then
      match Js.get data Js.Status with
      | inr error => (p, Some error)
      | inl status =>
          if Js.truthy status
          then showStatus_value p (default JNull status)
          else (p, None)
      end
    else (p, None) in
  match thrown with
  | Some error => (p1, Some error)
  | None =>
      let '(p2, thrown) :=
        if versionElement then
          match Js.get data Js.Version with
          | inr error => (p1, Some error)
          | inl version =>
              if Js.truthy version then
                match Js.to_string (default JNull version) with
                | inr error => (p1, Some error)
                | inl text => (set_text "server-version" text p1, None)
                end
              else (p1, None)
          end
        else (p1, None) in
      match thrown with
      | Some error => (p2, Some error)
      | None => (log (Logged "Status loaded successfully:" (Some data)) p2, None)
      end
  end.

(** Lines 49-74: the [catch] clause. *)
Definition show_error (statusElement versionElement : bool)
    (error : JsException) (p : State) : State :=
  let p0 := log (Failed "Failed to load status after retries:" error) p in
  let p1 :=
    if statusElement then
      appendChild "server-status" (Button "Retry" "retry-button" Reload)
        (appendChild "server-status" (Span "Error")
           (set_className "server-status" ["value"; "status-error"]
              (set_text "server-status" EmptyString p0)))
    else p0 in
  if versionElement then set_text "server-version" "N/A" p1 else p1.

(** Lines 12-18: the loading indication. *)
Definition show_loading (statusElement versionElement : bool) (p : State) : State :=
  let p1 :=
    if statusElement then
      set_className "server-status" ["value"]
        (set_text "server-status" "Loading..." p)
    else p in
  if versionElement then set_text "server-version" "Loading..." p1 else p1.

(** [loadStatus()]: the events of its one request sequence and the page it
    leaves.  The two elements are looked up once, on lines 8 and 9. *)
Definition loadStatus (fetch : string -> RequestInit -> nat -> FetchOutcome)
    (p : State) : list Event * State :=
  let statusElement := present "server-status" p in
  let versionElement := present "server-version" p in
  let run :=
    fetchJsonWithRetry fetch "/api/status" []
      (status_page_config (Some on_retry))
      (show_loading statusElement versionElement p) in
  let '(shown, thrown) :=
    match outcome run with
    | Returned data => show_data statusElement versionElement data (world run)
    | Threw error => (world run, Some error)
    end in
  (events run,
   match thrown with
   | Some error => show_error statusElement versionElement error shown
   | None => shown
   end).

(** The classes of a status element in order: [value] alone, or [value] and
    one status class. *)
Definition status_classes_ok (element : Dom.Element) : Prop :=
  Dom.classList element = ["value"] \/
  exists cls, cls ∈ Dom.status_classes /\ Dom.classList element = ["value"; cls].

(** Two pages with the same elements and children; the console apart. *)
Definition same_page (p q : State) : Prop :=
  document p = document q /\ children p = children q.

(** A click on a button of the page. *)
Definition click (fetch : string -> RequestInit -> nat -> FetchOutcome)
    (handler : Handler) (p : State) : list Event * State :=
  match handler with
  | Reload => loadStatus fetch p
  end.

End Page.

(** ** Test data for the status page *)

(** A page with the two elements that the script looks up, and a heading
    that it does not. *)
Definition status_page : Page.State :=
  {| Page.document :=
       {[ "server-status" := {| Dom.textContent := "Checking";
                                Dom.classList := ["value"; "status-ok"] |};
          "server-version" := {| Dom.textContent := "-";
                                 Dom.classList := ["value"; "mono"] |};
          "page-title" := {| Dom.textContent := "HA Dash";
                             Dom.classList := ["title"] |} ]};
     Page.children := {[ "page-title" := [Page.Span "beta"] ]};
     Page.console := [] |}.

(** A server whose first [failures] answers are 503 and whose later answers
    are 200 with the given payload. *)
Definition status_server (failures : nat) (data : Json)
    : string -> RequestInit -> nat -> FetchOutcome :=
  fun _ _ k =>
    if (k <? failures)%nat
    then Resolved (response_of 503 "Service Unavailable")
    else Resolved {| status := 200; statusText := "OK"; json := inl data |}.

(** A page without the status element. *)
Definition version_only_page : Page.State :=
  {| Page.document :=
       {[ "server-version" := {| Dom.textContent := "-";
                                 Dom.classList := ["value"] |} ]};
     Page.children := ∅;
     Page.console := [] |}.

(** ** Proof steps that recur *)

(** Turn a fact about the configuration's resolved fields into arithmetic. *)
Ltac resolve_config :=
  unfold maxRetries_of, initialDelay_of, maxDelay_of, backoffMultiplier_of;
  simpl; lia.

(** ** Facts about doubles *)

Section FloatFacts.

Import SpecFloat.

Lemma fexp_eq x : fexp 53 1024 x = Z.max (x - 53) (-1074).
Proof. reflexivity. Qed.

Lemma digits2_pos_bounds p :
  2 ^ (Z.pos (digits2_pos p) - 1) <= Z.pos p < 2 ^ Z.pos (digits2_pos p).
Proof.
  induction p as [p IH | p IH |]; cbn [digits2_pos].
  - rewrite Pos2Z.inj_succ. replace (Z.succ (Z.pos (digits2_pos p)) - 1)
      with (Z.succ (Z.pos (digits2_pos p) - 1)) by lia.
    rewrite !Z.pow_succ_r by lia. lia.
  - rewrite Pos2Z.inj_succ. replace (Z.succ (Z.pos (digits2_pos p)) - 1)
      with (Z.succ (Z.pos (digits2_pos p) - 1)) by lia.
    rewrite !Z.pow_succ_r by lia. lia.
  - simpl. lia.
Qed.

Lemma Zdigits2_bounds x :
  0 < x -> 2 ^ (Zdigits2 x - 1) <= x < 2 ^ Zdigits2 x.
Proof. destruct x as [| p | p]; [lia | | lia]. intros _. apply digits2_pos_bounds. Qed.

Lemma Zdigits2_unique x k :
  2 ^ (k - 1) <= x < 2 ^ k -> 0 < x -> Zdigits2 x = k.
Proof.
  intros Hk Hx. pose proof (Zdigits2_bounds x Hx) as Hd.
  assert (0 < Zdigits2 x) by (destruct x; simpl; lia).
  assert (0 < k).
  { destruct (Z.lt_trichotomy k 0) as [Hneg | [-> | Hpos]]; [| simpl in Hk; lia | done].
    rewrite (Z.pow_neg_r 2 k) in Hk by done. lia. }
  assert (Zdigits2 x - 1 < k).
  { apply (Z.pow_lt_mono_r_iff 2); lia. }
  assert (k - 1 < Zdigits2 x).
  { apply (Z.pow_lt_mono_r_iff 2); lia. }
  lia.
Qed.


Lemma shr_record_of_loc_m m l : shr_m (shr_record_of_loc m l) = m.
Proof. by destruct l as [| []]. Qed.

Lemma shr_1_m r : 0 <= shr_m r -> shr_m (shr_1 r) = shr_m r / 2.
Proof.
  destruct r as [m r s]. cbn [shr_m]. intros Hm.
  destruct m as [| [p | p |] | p]; cbn [shr_1 shr_m]; try done; try lia.
  - rewrite Pos2Z.inj_xI. apply (Z.div_unique_pos _ _ _ 1); lia.
  - rewrite Pos2Z.inj_xO. apply (Z.div_unique_pos _ _ _ 0); lia.
Qed.

Lemma iter_pos_shr_m n : forall r,
  0 <= shr_m r -> shr_m (iter_pos shr_1 n r) = shr_m r / 2 ^ Z.pos n.
Proof.
  assert (Hpow : forall n, 0 < 2 ^ Z.pos n)
    by (intros; apply Z.pow_pos_nonneg; lia).
  induction n as [n IH | n IH |]; intros r Hr; cbn [iter_pos].
  - assert (H1 : 0 <= shr_m (shr_1 r))
      by (rewrite shr_1_m by done; apply Z.div_pos; lia).
    assert (H2 : 0 <= shr_m (iter_pos shr_1 n (shr_1 r)))
      by (rewrite IH by done; apply Z.div_pos; [done | apply Hpow]).
    rewrite (IH _ H2), (IH _ H1), shr_1_m by done.
    pose proof (Hpow n).
    rewrite !Z.div_div by lia. f_equal.
    replace (Z.pos n~1) with (1 + Z.pos n + Z.pos n) by lia.
    rewrite !Z.pow_add_r by lia. change (2 ^ 1) with 2. lia.
  - assert (H2 : 0 <= shr_m (iter_pos shr_1 n r))
      by (rewrite IH by done; apply Z.div_pos; [done | apply Hpow]).
    rewrite (IH _ H2), (IH _ Hr).
    pose proof (Hpow n).
    rewrite !Z.div_div by lia. f_equal.
    replace (Z.pos n~0) with (Z.pos n + Z.pos n) by lia.
    by rewrite !Z.pow_add_r by lia.
  - by rewrite shr_1_m.
Qed.

Lemma shr_fexp_spec M e l :
  0 <= M ->
  shr_m (shr_fexp 53 1024 M e l).1
  = M / 2 ^ Z.max 0 (fexp 53 1024 (Zdigits2 M + e) - e) /\
  (shr_fexp 53 1024 M e l).2 = e + Z.max 0 (fexp 53 1024 (Zdigits2 M + e) - e).
Proof.
  intros HM. unfold shr_fexp, shr.
  destruct (fexp 53 1024 (Zdigits2 M + e) - e) as [| n | n] eqn:Hn;
    cbn [fst snd].
  - rewrite shr_record_of_loc_m. simpl. rewrite Z.div_1_r. lia.
  - rewrite iter_pos_shr_m by (by rewrite shr_record_of_loc_m).
    rewrite shr_record_of_loc_m. by rewrite Z.max_r by lia.
  - rewrite shr_record_of_loc_m. rewrite Z.max_l by lia. simpl.
    rewrite Z.div_1_r. lia.
Qed.

Lemma round_nearest_even_bounds m l :
  m <= round_nearest_even m l <= m + 1.
Proof. destruct l as [| []]; simpl; try lia. destruct (Z.even m); lia. Qed.

Lemma div_pow_bounds M D n :
  0 <= n < D -> 2 ^ (D - 1) <= M < 2 ^ D ->
  2 ^ (D - 1 - n) <= M / 2 ^ n < 2 ^ (D - n).
Proof.
  intros Hn HM. assert (0 < 2 ^ n) by (apply Z.pow_pos_nonneg; lia). split.
  - apply Z.div_le_lower_bound; [done |].
    rewrite <- Z.pow_add_r by lia. replace (n + (D - 1 - n)) with (D - 1) by lia. lia.
  - apply Z.div_lt_upper_bound; [done |].
    rewrite <- Z.pow_add_r by lia. replace (n + (D - n)) with D by lia. lia.
Qed.


(** Rounding a positive mantissa: truncate to the precision, round to
    nearest, and renormalise. *)
Lemma binary_round_aux_spec sx M e :
  0 < M ->
  exists m1,
    M / 2 ^ Z.max 0 (fexp 53 1024 (Zdigits2 M + e) - e) <= m1
    <= M / 2 ^ Z.max 0 (fexp 53 1024 (Zdigits2 M + e) - e) + 1 /\
    binary_round_aux 53 1024 sx M e loc_Exact
    = match m1 / 2 ^ Z.max 0 (fexp 53 1024
                                (Zdigits2 m1
                                 + (e + Z.max 0 (fexp 53 1024 (Zdigits2 M + e) - e)))
                              - (e + Z.max 0 (fexp 53 1024 (Zdigits2 M + e) - e)))
      with
      | 0 => S754_zero sx
      | Z.pos m =>
          if e + Z.max 0 (fexp 53 1024 (Zdigits2 M + e) - e)
             + Z.max 0 (fexp 53 1024
                          (Zdigits2 m1
                           + (e + Z.max 0 (fexp 53 1024 (Zdigits2 M + e) - e)))
                        - (e + Z.max 0 (fexp 53 1024 (Zdigits2 M + e) - e)))
             <=? 1024 - 53
          then S754_finite sx m
                 (e + Z.max 0 (fexp 53 1024 (Zdigits2 M + e) - e)
                  + Z.max 0 (fexp 53 1024
                               (Zdigits2 m1
                                + (e + Z.max 0 (fexp 53 1024 (Zdigits2 M + e) - e)))
                             - (e + Z.max 0 (fexp 53 1024 (Zdigits2 M + e) - e))))
          else S754_infinity sx
      | Z.neg _ => S754_nan
      end.
Proof.
  intros HM. unfold binary_round_aux.
  destruct (shr_fexp_spec M e loc_Exact) as [Hm He]; [lia |].
  destruct (shr_fexp 53 1024 M e loc_Exact) as [mrs' e'].
  cbn [fst snd] in Hm, He. subst e'.
  set (m1 := round_nearest_even (shr_m mrs') (loc_of_shr_record mrs')).
  pose proof (round_nearest_even_bounds (shr_m mrs') (loc_of_shr_record mrs'))
    as Hm1. fold m1 in Hm1. rewrite Hm in Hm1.
  exists m1. split; [done |].
  assert (0 <= m1).
  { assert (0 <= M / 2 ^ Z.max 0 (fexp 53 1024 (Zdigits2 M + e) - e)); [| lia].
    apply Z.div_pos; [lia |]. apply Z.pow_pos_nonneg; lia. }
  destruct (shr_fexp_spec m1 (e + Z.max 0 (fexp 53 1024 (Zdigits2 M + e) - e))
              loc_Exact) as [Hm2 He2]; [done |].
  destruct (shr_fexp 53 1024 m1 _ loc_Exact) as [mrs'' e''].
  cbn [fst snd] in Hm2, He2. by rewrite Hm2, He2.
Qed.


Lemma bounded_inv m e :
  bounded 53 1024 m e = true ->
  Z.max (Z.pos (digits2_pos m) + e - 53) (-1074) = e /\ e <= 971.
Proof.
  unfold bounded, canonical_mantissa. rewrite fexp_eq.
  intros [He Hle]%andb_true_iff. apply Z.eqb_eq in He. apply Z.leb_le in Hle.
  split; [done | lia].
Qed.

Lemma bounded_intro m e :
  Z.max (Z.pos (digits2_pos m) + e - 53) (-1074) = e -> e <= 971 ->
  bounded 53 1024 m e = true.
Proof.
  intros He Hle. unfold bounded, canonical_mantissa. rewrite fexp_eq.
  apply andb_true_iff. split; [by apply Z.eqb_eq | apply Z.leb_le; lia].
Qed.

(** The product of a positive double and a double that is at least 1 is
    an infinity or a double that is no smaller than the first factor. *)
Lemma SFmul_ge mx ex mm em :
  bounded 53 1024 mx ex = true ->
  bounded 53 1024 mm em = true ->
  -52 <= em ->
  SFmul 53 1024 (S754_finite false mx ex) (S754_finite false mm em)
  = S754_infinity false \/
  exists m2 e2,
    SFmul 53 1024 (S754_finite false mx ex) (S754_finite false mm em)
    = S754_finite false m2 e2 /\
    bounded 53 1024 m2 e2 = true /\
    (ex < e2 \/ ex = e2 /\ Z.pos mx <= Z.pos m2).
Proof.
  intros [Hx Hex]%bounded_inv [Hm Hem]%bounded_inv Hone.
  pose proof (digits2_pos_bounds mx) as Bx.
  pose proof (digits2_pos_bounds mm) as Bm.
  set (dx := Z.pos (digits2_pos mx)) in *.
  assert (Hdm : Z.pos (digits2_pos mm) = 53) by lia.
  rewrite Hdm in Bm. clear Hm Hdm.
  change (2 ^ (53 - 1)) with 4503599627370496 in Bm.
  change (2 ^ 53) with 9007199254740992 in Bm.
  assert (Hdx : 1 <= dx <= 53) by lia.
  cbn [SFmul xorb].
  set (M := Z.pos (mx * mm)).
  assert (HM : M = Z.pos mx * Z.pos mm) by done.
  assert (HMpos : 0 < M) by done.
  pose proof (Zdigits2_bounds M HMpos) as BM.
  set (D := Zdigits2 M) in *.
  assert (HD : dx + 52 <= D <= dx + 53).
  { assert (L : 2 ^ (dx + 51) <= M).
    { replace (dx + 51) with ((dx - 1) + 52) by lia.
      rewrite Z.pow_add_r by lia. change (2 ^ 52) with 4503599627370496.
      rewrite HM. apply Z.mul_le_mono_nonneg; lia. }
    assert (U : M < 2 ^ (dx + 53)).
    { rewrite Z.pow_add_r by lia. change (2 ^ 53) with 9007199254740992.
      rewrite HM. apply Z.mul_lt_mono_nonneg; lia. }
    assert (0 < D) by done.
    assert (dx + 51 < D) by (apply (Z.pow_lt_mono_r_iff 2); lia).
    assert (D - 1 < dx + 53) by (apply (Z.pow_lt_mono_r_iff 2); lia).
    lia. }
  destruct (binary_round_aux_spec false M (ex + em) HMpos) as (m1 & Hm1 & ->).
  fold D in Hm1. fold D. rewrite !fexp_eq in Hm1. rewrite !fexp_eq.
  set (e' := Z.max (D + (ex + em) - 53) (-1074)) in *.
  assert (Hn : Z.max 0 (e' - (ex + em)) = e' - (ex + em)) by lia.
  rewrite Hn in *. replace (ex + em + (e' - (ex + em))) with e' by lia.
  set (n := e' - (ex + em)) in *.
  set (k := D - n).
  assert (Hk : 1 <= k <= 53) by lia.
  assert (Hke : k = 53 \/ k < 53 /\ e' = -1074) by lia.
  assert (Hex' : ex <= e') by lia.
  pose proof (div_pow_bounds M D n ltac:(lia) BM) as Bm'.
  fold k in Bm'. replace (D - 1 - n) with (k - 1) in Bm' by lia.
  assert (Hmx : e' = ex -> Z.pos mx <= M / 2 ^ n).
  { intros He'. apply Z.div_le_lower_bound; [apply Z.pow_pos_nonneg; lia |].
    rewrite HM, (Z.mul_comm (2 ^ n)). apply Z.mul_le_mono_nonneg_l; [lia |].
    assert (2 ^ n <= 2 ^ 52) by (apply Z.pow_le_mono_r; lia).
    change (2 ^ 52) with 4503599627370496 in *. lia. }
  assert (Hpk : 2 ^ k = 2 * 2 ^ (k - 1)).
  { replace k with (Z.succ (k - 1)) at 1 by lia. rewrite Z.pow_succ_r; lia. }
  assert (0 < 2 ^ (k - 1)) by (apply Z.pow_pos_nonneg; lia).
  destruct (decide (m1 < 2 ^ k)) as [Hlt | Hge].
  - (* the rounded mantissa keeps its width *)
    rewrite (Zdigits2_unique m1 k) by lia.
    replace (Z.max 0 (Z.max (k + e' - 53) (-1074) - e')) with 0 by lia.
    rewrite Z.add_0_r. change (2 ^ 0) with 1. rewrite Z.div_1_r.
    destruct m1 as [| m1 | m1]; [lia | | lia].
    destruct (e' <=? 1024 - 53) eqn:Hfin; [| by left].
    apply Z.leb_le in Hfin. right. exists m1, e'. split; [done |]. split.
    + apply bounded_intro; [| lia].
      change (Z.pos (digits2_pos m1)) with (Zdigits2 (Z.pos m1)).
      rewrite (Zdigits2_unique _ k) by lia. lia.
    + lia.
  - (* rounding up reached the next power of two *)
    assert (Hm1eq : m1 = 2 ^ k) by lia.
    assert (Hd1 : Zdigits2 m1 = k + 1).
    { apply Zdigits2_unique; [| lia]. replace (k + 1 - 1) with k by lia.
      rewrite Hm1eq. split; [lia |].
      replace (k + 1) with (Z.succ k) by lia. rewrite Z.pow_succ_r; lia. }
    rewrite Hd1.
    destruct Hke as [Hk53 | [Hk53 He']].
    + replace (Z.max 0 (Z.max (k + 1 + e' - 53) (-1074) - e')) with 1 by lia.
      rewrite Hm1eq, Hk53.
      change (2 ^ 53 / 2 ^ 1) with (Z.pos 4503599627370496).
      cbv beta iota.
      destruct (e' + 1 <=? 1024 - 53) eqn:Hfin; [| by left].
      apply Z.leb_le in Hfin. right. exists 4503599627370496%positive, (e' + 1).
      split; [done |]. split; [| lia].
      apply bounded_intro; [| lia]. simpl. lia.
    + replace (Z.max 0 (Z.max (k + 1 + e' - 53) (-1074) - e')) with 0 by lia.
      rewrite Z.add_0_r. change (2 ^ 0) with 1. rewrite Z.div_1_r.
      destruct m1 as [| m1 | m1]; [lia | | lia].
      destruct (e' <=? 1024 - 53) eqn:Hfin; [| by left].
      apply Z.leb_le in Hfin. right. exists m1, e'. split; [done |]. split.
      * apply bounded_intro; [| lia].
        change (Z.pos (digits2_pos m1)) with (Zdigits2 (Z.pos m1)). lia.
      * lia.
Qed.


Lemma SFcompare_antisym a b :
  SFcompare b a = CompOpp <$> SFcompare a b.
Proof.
  destruct a as [sa | sa | | sa ma ea], b as [sb | sb | | sb mb eb];
    try destruct sa; try destruct sb; try done;
    cbn [SFcompare fmap option_fmap option_map];
    change (Pos.compare_cont Eq ?p ?q) with (p ?= q)%positive;
    rewrite (Z.compare_antisym ea eb), (Pos.compare_antisym ma mb);
    destruct (ea ?= eb); cbn [CompOpp]; try done;
    by destruct (ma ?= mb)%positive.
Qed.

Lemma SFleb_total a b :
  SFcompare a b <> None -> SFltb b a = false -> SFleb a b = true.
Proof.
  unfold SFltb, SFleb. rewrite (SFcompare_antisym a b).
  by destruct (SFcompare a b) as [[] |].
Qed.

Lemma SFltb_not_leb a b : SFleb a b = true -> SFltb b a = false.
Proof.
  unfold SFltb, SFleb. rewrite (SFcompare_antisym a b).
  by destruct (SFcompare a b) as [[] |].
Qed.

Lemma SFleb_refl a : a <> S754_nan -> SFleb a a = true.
Proof.
  unfold SFleb. destruct a as [sa | sa | | sa ma ea]; try done.
  - by destruct sa.
  - intros _. cbn [SFcompare]. rewrite Z.compare_refl.
    change (Pos.compare_cont Eq ma ma) with (ma ?= ma)%positive.
    rewrite Pos.compare_refl. by destruct sa.
Qed.

Lemma SFleb_trans a b c :
  SFleb a b = true -> SFleb b c = true -> SFleb a c = true.
Proof.
  unfold SFleb.
  destruct a as [sa | sa | | sa ma ea], b as [sb | sb | | sb mb eb],
    c as [sc | sc | | sc mc ec];
    try destruct sa; try destruct sb; try destruct sc; try done;
    cbn [SFcompare];
    change (Pos.compare_cont Eq ?p ?q) with (p ?= q)%positive;
    destruct (Z.compare_spec ea eb), (Z.compare_spec eb ec),
      (Z.compare_spec ea ec); try done; try lia;
    destruct (Pos.compare_spec ma mb), (Pos.compare_spec mb mc),
      (Pos.compare_spec ma mc); try done; try lia.
Qed.

(** [Math.min] keeps a first argument that is an ordinary number no greater
    than the second. *)
Lemma min_finite_l (x y : Number.t) :
  (if x is S754_finite _ _ _ then True else False) ->
  Number.le x y -> Number.min x y = x.
Proof.
  unfold Number.le, Number.leb, Number.min, Number.ltb.
  destruct x as [| | | sx mx ex]; try done. intros _ Hle.
  rewrite (SFltb_not_leb _ _ Hle). by destruct y.
Qed.

End FloatFacts.

(** ** Facts about the backoff rule *)

Section DelayFacts.

Import SpecFloat.

(** A finite double that is at least 1. *)
Lemma ge_1_inv x :
  Number.finite x = true -> Number.le 1 x ->
  exists m e, x = S754_finite false m e /\ bounded 53 1024 m e = true /\ -52 <= e.
Proof.
  unfold Number.le, Number.leb, SFleb.
  change (Number.of_Z 1) with (S754_finite false 4503599627370496 (-52)).
  destruct x as [s | s | | s m e]; try done; try (by destruct s).
  destruct s; [done |]. cbn [SFcompare Number.finite]. intros Hb Hle.
  exists m, e. split; [done |]. split; [done |].
  destruct (Z.compare_spec (-52) e); (done || lia).
Qed.

(** A finite double that is not negative. *)
Lemma ge_0_inv x :
  Number.finite x = true -> Number.le 0 x ->
  (exists s, x = S754_zero s) \/
  exists m e, x = S754_finite false m e /\ bounded 53 1024 m e = true.
Proof.
  unfold Number.le, Number.leb, SFleb.
  change (Number.of_Z 0) with (S754_zero false).
  destruct x as [s | s | | s m e]; try done.
  - intros _ _. left. by exists s.
  - destruct s; [done |]. intros Hb _. right. by exists m, e.
Qed.

Lemma nextDelay_bounds mult cap delay :
  Number.finite mult = true -> Number.le 1 mult ->
  Number.finite cap = true ->
  Number.finite delay = true -> Number.le 0 delay -> Number.le delay cap ->
  Number.finite (nextDelay cap mult delay) = true /\
  Number.le delay (nextDelay cap mult delay) /\
  Number.le (nextDelay cap mult delay) cap.
Proof.
  intros Hm H1 Hc Hd H0 Hle.
  destruct (ge_1_inv mult Hm H1) as (mm & em & -> & Hbm & Hem).
  unfold Number.le, Number.leb, nextDelay, Number.min, Number.mul, Number.ltb in *.
  destruct (ge_0_inv delay Hd H0) as [[sd ->] | (md & ed & -> & Hbd)].
  - (* a zero delay stays zero *)
    cbn [SFmul xorb]. rewrite xorb_false_r.
    by destruct cap as [sc | sc | | sc mc ec], sd; try destruct sc.
  - destruct cap as [sc | sc | | sc mc ec]; try done.
    destruct sc; [done |]. cbn [Number.finite] in Hc.
    destruct (SFmul_ge md ed mm em Hbd Hbm Hem)
      as [-> | (m2 & e2 & -> & Hb & Hge)].
    + (* the product overflows *)
      cbn [SFltb SFcompare]. cbv beta iota.
      split; [done |]. split; [done |]. by apply SFleb_refl.
    + destruct (SFltb (S754_finite false mc ec) (S754_finite false m2 e2))
        eqn:Hlt.
      * split; [done |]. split; [done |]. by apply SFleb_refl.
      * split; [done |]. split.
        -- unfold SFleb. cbn [SFcompare].
           change (Pos.compare_cont Eq ?p ?q) with (p ?= q)%positive.
           destruct (Z.compare_spec ed e2); [| done | lia].
           destruct (Pos.compare_spec md m2); (done || lia).
        -- by apply SFleb_total.
Qed.


(** On finite doubles that are not negative the order is that of the
    values. *)
Lemma units_mono x y :
  Number.finite x = true -> Number.finite y = true ->
  Number.le 0 x -> Number.le x y -> Number.units x <= Number.units y.
Proof.
  intros Hx Hy H0 Hle.
  destruct (ge_0_inv x Hx H0) as [[sx ->] | (mx & ex & -> & Hbx)].
  - destruct y as [sy | sy | | sy my ey]; try done.
    destruct sy; [by destruct sx |]. cbn [Number.units].
    assert (0 < 2 ^ (ey + 1074)); [| lia].
    apply bounded_inv in Hy as [Hy _]. apply Z.pow_pos_nonneg; lia.
  - unfold Number.le, Number.leb, SFleb in Hle.
    destruct y as [sy | sy | | sy my ey]; try done.
    destruct sy; [done |]. cbn [SFcompare Number.units Number.finite] in *.
    change (Pos.compare_cont Eq ?p ?q) with (p ?= q)%positive in Hle.
    apply bounded_inv in Hbx as [Hbx _]. apply bounded_inv in Hy as [Hy _].
    pose proof (digits2_pos_bounds mx) as Bx.
    pose proof (digits2_pos_bounds my) as By.
    rewrite !Z.mul_1_l.
    destruct (Z.compare_spec ex ey) as [-> | Hlt | Hgt]; [| | done].
    + destruct (Pos.compare_spec mx my); try done.
      * subst. lia.
      * apply Z.mul_le_mono_nonneg_r; [apply Z.pow_nonneg |]; lia.
    + assert (Hdy : Z.pos (digits2_pos my) = 53) by lia.
      rewrite Hdy in By. change (2 ^ (53 - 1)) with 4503599627370496 in By.
      assert (Hmx : Z.pos mx < 9007199254740992).
      { assert (2 ^ Z.pos (digits2_pos mx) <= 2 ^ 53)
          by (apply Z.pow_le_mono_r; lia).
        change (2 ^ 53) with 9007199254740992 in *. lia. }
      replace (ey + 1074) with ((ey - ex - 1) + (1 + (ex + 1074))) by lia.
      rewrite (Z.pow_add_r 2 (ey - ex - 1)), (Z.pow_add_r 2 1) by lia.
      change (2 ^ 1) with 2.
      assert (0 < 2 ^ (ex + 1074)) by (apply Z.pow_pos_nonneg; lia).
      assert (1 <= 2 ^ (ey - ex - 1)).
      { pose proof (Z.pow_pos_nonneg 2 (ey - ex - 1)). lia. }
      set (A := 2 ^ (ex + 1074)) in *. set (B := 2 ^ (ey - ex - 1)) in *.
      clearbody A B.
      apply Z.le_trans with (2 * Z.pos my * A); [nia |].
      replace (Z.pos my * (B * (2 * A))) with (2 * Z.pos my * A * B) by lia.
      nia.
Qed.




End DelayFacts.

Section MoreDelayFacts.

Variables (backoffMultiplier' maxDelay' : Number.t).

Local Abbreviation nextDelay' := (nextDelay maxDelay' backoffMultiplier').
Local Abbreviation delays' := (delays backoffMultiplier' maxDelay').

Lemma delays_length m delay : length (delays' m delay) = m.
Proof. revert delay. induction m as [| m IH]; intros delay; simpl; by rewrite ?IH. Qed.


Lemma delays_total m : forall delay,
  Number.finite backoffMultiplier' = true -> Number.le 1 backoffMultiplier' ->
  Number.finite maxDelay' = true ->
  Number.finite delay = true -> Number.le 0 delay -> Number.le delay maxDelay' ->
  total (Number.units <$> delays' m delay) <= Z.of_nat m * Number.units maxDelay'.
Proof.
  induction m as [| m IH]; intros delay Hm H1 Hc Hd H0 Hle; [done |].
  cbn [delays fmap list_fmap total foldr].
  destruct (nextDelay_bounds _ _ delay Hm H1 Hc Hd H0 Hle) as (Hn & Hge & Hnc).
  pose proof (units_mono delay maxDelay' Hd Hc H0 Hle).
  specialize (IH (nextDelay' delay) Hm H1 Hc Hn
                (SFleb_trans _ _ _ H0 Hge) Hnc).
  unfold total in IH. lia.
Qed.

End MoreDelayFacts.

(** ** Whole numbers as doubles *)

Section ExactFacts.

Import SpecFloat.













End ExactFacts.

(** The sequence of the default configuration. *)
Example default_delays :
  delays 2 30000 7 1000 = [1000; 2000; 4000; 8000; 16000; 30000; 30000].
Proof. reflexivity. Qed.

(** With a multiplier that is no whole number the products are rounded as
    the operator [*] rounds them: the fourth delay of 1000, 1150, 1322.5, ...
    is 1520.8749999999998, the double just below 1520.875. *)
Example fractional_delays :
  delays (Number.div 115 100) 10000 4 1000
  = [Number.of_Z 1000; Number.of_Z 1150; Number.div 2645 2;
     SpecFloat.S754_finite false 6688878987575295 (-42)] /\
  Number.div 1520875 1000 = SpecFloat.S754_finite false 6688878987575296 (-42).
Proof. split; reflexivity. Qed.

(** Beyond 2^53 a product of whole numbers is rounded too: three times
    9007199254740991 is 27021597764222973, and the delay is the double
    27021597764222972. *)
Example large_product :
  nextDelay (Number.of_Z (2 ^ 100)) 3 9007199254740991
  = SpecFloat.S754_finite false 6755399441055743 2 /\
  6755399441055743 * 2 ^ 2 = 27021597764222972.
Proof. split; reflexivity. Qed.

(** The sign of the first delay matters: a negative number, which is no
    duration, would be doubled away from zero. *)
Remark negative_delays_decrease :
  delays 2 30000 3 (-1000) = [-1000; -2000; -4000].
Proof. reflexivity. Qed.

(** ** Facts about one iteration *)

Section IterationFacts.

Context {W : Type}.
Variable (maxRetries' : Z).
Variables (maxDelay' backoffMultiplier' : Number.t).
Variable (onRetry' : option (@Hook W)).

Lemma try_block_ok response :
  ok response = true -> try_block (Resolved response) = TryReturn response.
Proof. intros Hok. simpl. by rewrite Hok. Qed.

Lemma try_block_client_error response :
  400 <= status response < 500 ->
  try_block (Resolved response) = TryThrow (http_error response).
Proof.
  intros Hs. unfold try_block, ok.
  replace (status response <=? 299) with false by lia.
  rewrite andb_false_r.
  replace (400 <=? status response) with true by lia.
  by replace (status response <? 500) with true by lia.
Qed.

Lemma try_block_server_error response :
  500 <= status response ->
  try_block (Resolved response) = TryNormal (http_error response).
Proof.
  intros Hs. unfold try_block, ok.
  replace (status response <=? 299) with false by lia.
  rewrite andb_false_r.
  replace (status response <? 500) with false by lia.
  by rewrite andb_false_r.
Qed.

(** Only [ok] responses leave the [try] statement by [return]. *)
Lemma try_catch_return attempt out response :
  try_catch maxRetries' attempt out = CtlReturn response ->
  out = Resolved response /\ ok response = true.
Proof.
  unfold try_catch, try_block. destruct out as [r | e].
  - destruct (ok r) eqn:Hok.
    + intros [= ->]. done.
    + destruct (_ && _); [destruct (_ =? _) |]; discriminate.
  - destruct (_ =? _); discriminate.
Qed.

(** The [break] is taken in the last iteration only. *)
Lemma try_catch_break attempt out error :
  try_catch maxRetries' attempt out = CtlBreak error -> attempt = maxRetries'.
Proof.
  unfold try_catch. destruct (try_block out); try discriminate.
  destruct (attempt =? maxRetries') eqn:He; [lia | discriminate].
Qed.

Lemma backoff_last attempt delay (w : W) :
  maxRetries' <= attempt ->
  backoff maxRetries' maxDelay' backoffMultiplier' onRetry' attempt delay w
  = ([], delay, w).
Proof. intros H. unfold backoff. by replace (attempt <? maxRetries') with false by lia. Qed.

Lemma backoff_wait attempt delay (w : W) :
  attempt < maxRetries' ->
  backoff maxRetries' maxDelay' backoffMultiplier' onRetry' attempt delay w
  = match onRetry' with
    | Some hook =>
        ([EvOnRetry (attempt + 1) delay; EvSleep delay],
         nextDelay maxDelay' backoffMultiplier' delay,
         hook (attempt + 1) delay w)
    | None =>
        ([EvSleep delay], nextDelay maxDelay' backoffMultiplier' delay, w)
    end.
Proof.
  intros H. unfold backoff. replace (attempt <? maxRetries') with true by lia.
  by destruct onRetry'.
Qed.

(** The wait causes no call of [fetch], and waits for [delay] or not at all. *)
Lemma backoff_events attempt delay (w : W) waited delay' w' :
  backoff maxRetries' maxDelay' backoffMultiplier' onRetry' attempt delay w
  = (waited, delay', w') ->
  fetch_attempts waited = [] /\ parses waited = [] /\
  (waits waited = [] /\ delay' = delay \/
   waits waited = [delay] /\ delay' = nextDelay maxDelay' backoffMultiplier' delay).
Proof.
  unfold backoff. destruct (attempt <? maxRetries').
  - destruct onRetry'; intros [= <- <- <-]; auto.
  - intros [= <- <- <-]; auto.
Qed.

End IterationFacts.

(** ** Facts about the loop *)

Section LoopFacts.

Context {W : Type}.
Variable (maxRetries' : Z).
Variables (maxDelay' backoffMultiplier' : Number.t).
Variable (onRetry' : option (@Hook W)).
Variable (fetch : string -> RequestInit -> nat -> FetchOutcome).
Variables (url : string) (options : RequestInit).

Local Abbreviation loop' :=
  (loop maxRetries' maxDelay' backoffMultiplier' onRetry' fetch url options).
Local Abbreviation backoff' :=
  (backoff maxRetries' maxDelay' backoffMultiplier' onRetry').

(** One turn of the [for] statement. *)
Lemma loop_step attempt delay lastError calls (w : W) :
  loop' attempt delay lastError calls w =
  if attempt <=? maxRetries' then
    match try_catch maxRetries' attempt (fetch url options calls) with
    | CtlReturn response =>
        {| events := [EvFetch attempt]; outcome := Returned response; world := w |}
    | CtlBreak error =>
        {| events := [EvFetch attempt]; outcome := Threw error; world := w |}
    | CtlNext error =>
        let '(waited, delay', w') := backoff' attempt delay w in
        after (EvFetch attempt :: waited)
              (loop' (attempt + 1) delay' error (S calls) w')
    end
  else {| events := []; outcome := Threw lastError; world := w |}.
Proof.
  rewrite loop_equation_1.
  destruct (Z_le_gt_dec attempt maxRetries') as [Hle | Hgt]; simp loop.
  - by replace (attempt <=? maxRetries') with true by lia.
  - by replace (attempt <=? maxRetries') with false by lia.
Qed.

(** Induction along the iterations that remain. *)
Lemma attempt_ind (P : Z -> Prop) :
  (forall attempt, (attempt <= maxRetries' -> P (attempt + 1)) -> P attempt) ->
  forall attempt, P attempt.
Proof.
  intros Hstep attempt.
  remember (Z.to_nat (maxRetries' + 1 - attempt)) as n eqn:Hn.
  revert attempt Hn. induction n as [| n IH]; intros attempt Hn.
  - apply Hstep. lia.
  - apply Hstep. intros Hle. apply IH. lia.
Qed.

Lemma fetch_attempts_after attempt waited (r : Run W Response) :
  fetch_attempts waited = [] ->
  fetch_attempts (events (after (EvFetch attempt :: waited) r))
  = attempt :: fetch_attempts (events r).
Proof.
  intros Hw. unfold fetch_attempts in *. simpl.
  by rewrite omap_app, Hw.
Qed.

(** The iterations that call [fetch] are consecutive from the current one,
    and there are no more of them than iterations remain. *)
Lemma loop_attempts attempt delay lastError calls (w : W) :
  exists m : Z,
    0 <= m <= Z.max 0 (maxRetries' + 1 - attempt) /\
    (attempt <= maxRetries' -> 1 <= m) /\
    fetch_attempts (events (loop' attempt delay lastError calls w))
    = seqZ attempt m.
Proof.
  revert delay lastError calls w. pattern attempt. apply attempt_ind.
  clear attempt. intros attempt IH delay lastError calls w.
  rewrite loop_step. destruct (attempt <=? maxRetries') eqn:Hle.
  - apply Z.leb_le in Hle.
    destruct (try_catch _ _ _) as [response | error | error].
    + exists 1. split; [lia |]. split; [lia |]. reflexivity.
    + exists 1. split; [lia |]. split; [lia |]. reflexivity.
    + destruct (backoff' attempt delay w) as [[waited delay'] w'] eqn:Hb.
      apply backoff_events in Hb as (Hf & _ & _).
      destruct (IH Hle delay' error (S calls) w') as (m & Hm & _ & Heq).
      exists (m + 1). split; [lia |]. split; [lia |].
      rewrite fetch_attempts_after, Heq by done.
      rewrite (seqZ_cons attempt (m + 1)) by lia.
      do 2 f_equal; lia.
  - apply Z.leb_gt in Hle. exists 0. split; [lia |]. split; [lia |]. reflexivity.
Qed.


(** The loop never reads a body. *)
Lemma loop_parses attempt delay lastError calls (w : W) :
  parses (events (loop' attempt delay lastError calls w)) = [].
Proof.
  revert delay lastError calls w. pattern attempt. apply attempt_ind.
  clear attempt. intros attempt IH delay lastError calls w.
  rewrite loop_step. destruct (attempt <=? maxRetries') eqn:Hle; [| done].
  apply Z.leb_le in Hle.
  destruct (try_catch _ _ _) as [response | error | error]; [done | done |].
  destruct (backoff' attempt delay w) as [[waited delay'] w'] eqn:Hb.
  apply backoff_events in Hb as (_ & Hp & _).
  unfold parses in *. simpl. by rewrite omap_app, Hp, IH.
Qed.


(** A failed attempt with attempts left: notify, wait, go on. *)
Lemma loop_retry attempt delay lastError calls (w : W) error :
  attempt < maxRetries' ->
  try_catch maxRetries' attempt (fetch url options calls) = CtlNext error ->
  loop' attempt delay lastError calls w =
  match onRetry' with
  | Some hook =>
      after [EvFetch attempt; EvOnRetry (attempt + 1) delay; EvSleep delay]
            (loop' (attempt + 1) (nextDelay maxDelay' backoffMultiplier' delay)
                   error (S calls) (hook (attempt + 1) delay w))
  | None =>
      after [EvFetch attempt; EvSleep delay]
            (loop' (attempt + 1) (nextDelay maxDelay' backoffMultiplier' delay)
                   error (S calls) w)
  end.
Proof.
  intros Hlt Htc. rewrite loop_step, Htc, backoff_wait by done.
  replace (attempt <=? maxRetries') with true by lia.
  by destruct onRetry'.
Qed.

(** A failed last attempt: its error is thrown, with no wait. *)
Lemma loop_exhausted attempt delay lastError calls (w : W) error :
  attempt = maxRetries' ->
  try_catch maxRetries' attempt (fetch url options calls) = CtlNext error \/
  try_catch maxRetries' attempt (fetch url options calls) = CtlBreak error ->
  loop' attempt delay lastError calls w =
  {| events := [EvFetch attempt]; outcome := Threw error; world := w |}.
Proof.
  intros Heq Htc. rewrite loop_step.
  replace (attempt <=? maxRetries') with true by lia.
  destruct Htc as [-> | ->]; [| done].
  rewrite backoff_last, loop_step by lia.
  by replace (attempt + 1 <=? maxRetries') with false by lia.
Qed.

(** An [ok] response is returned at once. *)
Lemma loop_return attempt delay lastError calls (w : W) response :
  attempt <= maxRetries' ->
  fetch url options calls = Resolved response ->
  ok response = true ->
  loop' attempt delay lastError calls w =
  {| events := [EvFetch attempt]; outcome := Returned response; world := w |}.
Proof.
  intros Hle Hfetch Hok. rewrite loop_step. unfold try_catch.
  rewrite Hfetch, try_block_ok by done.
  by replace (attempt <=? maxRetries') with true by lia.
Qed.

Lemma try_catch_server_error attempt response :
  500 <= status response ->
  try_catch maxRetries' attempt (Resolved response)
  = CtlNext (http_error response).
Proof. intros H. unfold try_catch. by rewrite try_block_server_error. Qed.

(** With attempts left, the error thrown for a 4xx status is caught and the
    loop goes on like for any other failure. *)
Lemma try_catch_client_error attempt response :
  400 <= status response < 500 ->
  try_catch maxRetries' attempt (Resolved response)
  = if attempt =? maxRetries' then CtlBreak (http_error response)
    else CtlNext (http_error response).
Proof. intros H. unfold try_catch. by rewrite try_block_client_error. Qed.

End LoopFacts.

(** ** The shape of a run *)

Section ShapeFacts.

Context {W : Type}.
Variable (maxRetries' : Z).
Variables (maxDelay' backoffMultiplier' : Number.t).
Variable (onRetry' : option (@Hook W)).
Variable (fetch : string -> RequestInit -> nat -> FetchOutcome).
Variables (url : string) (options : RequestInit).

Local Abbreviation loop' :=
  (loop maxRetries' maxDelay' backoffMultiplier' onRetry' fetch url options).
Local Abbreviation rounds' := (rounds onRetry' backoffMultiplier' maxDelay').
Local Abbreviation delays' := (delays backoffMultiplier' maxDelay').

(** What leaves the [try] statement, in terms of [failure]. *)
Lemma try_catch_failure attempt out :
  match try_catch maxRetries' attempt out with
  | CtlReturn response => out = Resolved response /\ ok response = true
  | CtlBreak error => attempt = maxRetries' /\ failure out = Some error
  | CtlNext error => failure out = Some error
  end.
Proof.
  unfold try_catch, try_block, failure. destruct out as [response | reason].
  - destruct (ok response) eqn:Hok; [by split |].
    destruct (_ && _); [| done].
    destruct (attempt =? maxRetries') eqn:He; [split; [lia | done] | done].
  - destruct (attempt =? maxRetries') eqn:He; [split; [lia | done] | done].
Qed.

Lemma rounds_fetch_attempts k : forall attempt delay,
  fetch_attempts (rounds' k attempt delay) = seqZ attempt (Z.of_nat k).
Proof.
  induction k as [| k IH]; intros attempt delay; [done |].
  cbn [rounds]. unfold fetch_attempts in *. cbn [omap list_omap].
  rewrite omap_app. cbn [omap list_omap]. rewrite IH.
  rewrite (seqZ_cons attempt (Z.of_nat (S k))) by lia.
  destruct onRetry'; simpl; do 2 f_equal; lia.
Qed.

Lemma rounds_waits k : forall attempt delay,
  waits (rounds' k attempt delay) = delays' k delay.
Proof.
  induction k as [| k IH]; intros attempt delay; [done |].
  cbn [rounds delays]. unfold waits in *. cbn [omap list_omap].
  rewrite omap_app. cbn [omap list_omap]. rewrite IH.
  by destruct onRetry'.
Qed.

Lemma rounds_retry_calls k : forall attempt delay,
  retry_calls (rounds' k attempt delay)
  = match onRetry' with
    | Some _ => zip (seqZ (attempt + 1) (Z.of_nat k)) (delays' k delay)
    | None => []
    end.
Proof.
  induction k as [| k IH]; intros attempt delay.
  - by destruct onRetry'.
  - cbn [rounds delays]. unfold retry_calls in *. cbn [omap list_omap].
    rewrite omap_app. cbn [omap list_omap]. rewrite IH.
    destruct onRetry'; [| done]. simpl.
    rewrite (seqZ_cons (attempt + 1) (Z.of_nat (S k))) by lia. simpl.
    do 3 f_equal; lia.
Qed.

(** Every run of the loop that is entered is some rounds of failed attempts
    and then one last attempt, which either returns an [ok] response or is
    the last one allowed and fails. *)
Lemma loop_shape attempt : forall delay lastError calls (w : W),
  attempt <= maxRetries' ->
  exists k : nat,
    attempt + Z.of_nat k <= maxRetries' /\
    events (loop' attempt delay lastError calls w)
    = rounds' k attempt delay ++ [EvFetch (attempt + Z.of_nat k)] /\
    (forall i, (i < k)%nat -> failure (fetch url options (calls + i)%nat) <> None) /\
    match outcome (loop' attempt delay lastError calls w) with
    | Returned response =>
        fetch url options (calls + k)%nat = Resolved response /\
        ok response = true
    | Threw error =>
        attempt + Z.of_nat k = maxRetries' /\
        failure (fetch url options (calls + k)%nat) = Some error
    end.
Proof.
  pattern attempt. apply (attempt_ind maxRetries'). clear attempt.
  intros attempt IH delay lastError calls w Hle.
  pose proof (try_catch_failure attempt (fetch url options calls)) as Htc.
  destruct (try_catch maxRetries' attempt (fetch url options calls))
    as [response | error | error] eqn:Hctl.
  - rewrite loop_step, Hctl. replace (attempt <=? maxRetries') with true by lia.
    exists 0%nat. rewrite Nat.add_0_r, Z.add_0_r. simpl.
    split; [lia |]. split; [done |]. split; [intros i Hi; lia | done].
  - rewrite loop_step, Hctl. replace (attempt <=? maxRetries') with true by lia.
    exists 0%nat. rewrite Nat.add_0_r, Z.add_0_r. simpl.
    split; [lia |]. split; [done |]. split; [intros i Hi; lia | done].
  - destruct (decide (attempt = maxRetries')) as [Heq | Hne].
    + rewrite (loop_exhausted _ _ _ _ _ _ _ _ _ _ _ _ error) by auto.
      exists 0%nat. rewrite Nat.add_0_r, Z.add_0_r. simpl.
      split; [lia |]. split; [done |]. split; [intros i Hi; lia | done].
    + rewrite (loop_retry _ _ _ _ _ _ _ _ _ _ _ _ error) by (done || lia).
      assert (Hnext : attempt + 1 <= maxRetries') by lia.
      destruct onRetry' as [hook |].
      * destruct (IH Hle (nextDelay maxDelay' backoffMultiplier' delay) error
                    (S calls) (hook (attempt + 1) delay w) Hnext)
          as (k & Hk & Hev & Hfail & Hout).
        exists (S k). split; [lia |]. split; [| split].
        -- unfold after. cbn [events rounds]. rewrite Hev. simpl.
           by replace (attempt + Z.of_nat (S k)) with (attempt + 1 + Z.of_nat k)
             by lia.
        -- intros [| i] Hi; [rewrite Nat.add_0_r, Htc; done |].
           replace (calls + S i)%nat with (S calls + i)%nat by lia.
           apply Hfail. lia.
        -- unfold after. cbn [outcome].
           replace (calls + S k)%nat with (S calls + k)%nat by lia.
           destruct (outcome _); [done |].
           destruct Hout as [Hlast Herr]. split; [lia | done].
      * destruct (IH Hle (nextDelay maxDelay' backoffMultiplier' delay) error
                    (S calls) w Hnext)
          as (k & Hk & Hev & Hfail & Hout).
        exists (S k). split; [lia |]. split; [| split].
        -- unfold after. cbn [events rounds]. rewrite Hev. simpl.
           by replace (attempt + Z.of_nat (S k)) with (attempt + 1 + Z.of_nat k)
             by lia.
        -- intros [| i] Hi; [rewrite Nat.add_0_r, Htc; done |].
           replace (calls + S i)%nat with (S calls + i)%nat by lia.
           apply Hfail. lia.
        -- unfold after. cbn [outcome].
           replace (calls + S k)%nat with (S calls + k)%nat by lia.
           destruct (outcome _); [done |].
           destruct Hout as [Hlast Herr]. split; [lia | done].
Qed.

(** The caller's state changes through the hook only. *)
Lemma loop_world attempt : forall delay lastError calls (w : W),
  world (loop' attempt delay lastError calls w)
  = notified onRetry'
      (retry_calls (events (loop' attempt delay lastError calls w))) w.
Proof.
  pattern attempt. apply (attempt_ind maxRetries'). clear attempt.
  intros attempt IH delay lastError calls w.
  rewrite loop_step. destruct (attempt <=? maxRetries') eqn:Hle.
  - apply Z.leb_le in Hle.
    destruct (try_catch _ _ _) as [response | error | error];
      [by destruct onRetry' | by destruct onRetry' |].
    unfold backoff. destruct (attempt <? maxRetries').
    + destruct onRetry' as [hook |]; unfold after; simpl; by rewrite IH.
    + unfold after. simpl. by rewrite IH.
  - by destruct onRetry'.
Qed.

(** A run of the loop starts with an attempt. *)
Lemma shape_head k attempt delay :
  (rounds' k attempt delay ++ [EvFetch (attempt + Z.of_nat k)]) !! 0%nat
  = Some (EvFetch attempt).
Proof. destruct k; [by rewrite Z.add_0_r | done]. Qed.

(** What comes next to each event of a run: after an attempt that is not the
    last, the notification if there is a hook, the wait and the next
    attempt; after a notification its wait; after a wait an attempt; before
    a wait, when there is a hook, its notification. *)
Lemma shape_neighbours k : forall attempt delay (i : nat) ev,
  (rounds' k attempt delay ++ [EvFetch (attempt + Z.of_nat k)]) !! i = Some ev ->
  match ev with
  | EvFetch a =>
      S i = length (rounds' k attempt delay ++ [EvFetch (attempt + Z.of_nat k)]) \/
      exists (s : nat) d,
        match onRetry' with
        | Some _ =>
            s = S (S i) /\
            (rounds' k attempt delay ++ [EvFetch (attempt + Z.of_nat k)]) !! S i
            = Some (EvOnRetry (a + 1) d)
        | None => s = S i
        end /\
        (rounds' k attempt delay ++ [EvFetch (attempt + Z.of_nat k)]) !! s
        = Some (EvSleep d) /\
        (rounds' k attempt delay ++ [EvFetch (attempt + Z.of_nat k)]) !! S s
        = Some (EvFetch (a + 1))
  | EvOnRetry a d =>
      (rounds' k attempt delay ++ [EvFetch (attempt + Z.of_nat k)]) !! S i
      = Some (EvSleep d)
  | EvSleep d =>
      (exists a,
         (rounds' k attempt delay ++ [EvFetch (attempt + Z.of_nat k)]) !! S i
         = Some (EvFetch a)) /\
      match onRetry' with
      | Some _ =>
          exists (i' : nat) a,
            i = S i' /\
            (rounds' k attempt delay ++ [EvFetch (attempt + Z.of_nat k)]) !! i'
            = Some (EvOnRetry a d)
      | None => True
      end
  | EvJson _ => False
  end.
Proof.
  induction k as [| k IH]; intros attempt delay i ev.
  - destruct i as [| i]; [| done]. intros [= <-]. by left.
  - replace (attempt + Z.of_nat (S k)) with (attempt + 1 + Z.of_nat k) by lia.
    cbn [rounds]. specialize (IH (attempt + 1)
      (nextDelay maxDelay' backoffMultiplier' delay)).
    pose proof (shape_head k (attempt + 1)
                  (nextDelay maxDelay' backoffMultiplier' delay)) as Hhead.
    set (rest := rounds' k (attempt + 1)
                   (nextDelay maxDelay' backoffMultiplier' delay)
                 ++ [EvFetch (attempt + 1 + Z.of_nat k)]) in *.
    destruct onRetry' as [hook |].
    + change ((EvFetch attempt
               :: [EvOnRetry (attempt + 1) delay]
               ++ EvSleep delay
               :: rounds (Some hook) backoffMultiplier' maxDelay' k (attempt + 1)
                    (nextDelay maxDelay' backoffMultiplier' delay))
              ++ [EvFetch (attempt + 1 + Z.of_nat k)])
        with (EvFetch attempt :: EvOnRetry (attempt + 1) delay
              :: EvSleep delay :: rest).
      destruct i as [| [| [| i]]].
      * intros [= <-]. right. by exists 2%nat, delay.
      * by intros [= <-].
      * intros [= <-]. split; [by eexists |]. by exists 1%nat, (attempt + 1).
      * intros Hev. change (rest !! i = Some ev) in Hev.
        specialize (IH i ev Hev). destruct ev as [a | a d | d | r]; [| done | |done].
        -- destruct IH as [Hlast | (s & d & [-> Hn] & Hs & Hf)].
           ++ left. cbn [length]. by rewrite <- Hlast.
           ++ right. by exists (S (S (S (S (S i))))), d.
        -- destruct IH as [Hnext (i' & a & -> & Hi')]. split; [done |].
           by exists (S (S (S i'))), a.
    + change ((EvFetch attempt
               :: []
               ++ EvSleep delay
               :: rounds None backoffMultiplier' maxDelay' k (attempt + 1)
                    (nextDelay maxDelay' backoffMultiplier' delay))
              ++ [EvFetch (attempt + 1 + Z.of_nat k)])
        with (EvFetch attempt :: EvSleep delay :: rest).
      destruct i as [| [| i]].
      * intros [= <-]. right. by exists 1%nat, delay.
      * intros [= <-]. split; [by eexists | done].
      * intros Hev. change (rest !! i = Some ev) in Hev.
        specialize (IH i ev Hev). destruct ev as [a | a d | d | r]; [| done | |done].
        -- destruct IH as [Hlast | (s & d & -> & Hs & Hf)].
           ++ left. cbn [length]. by rewrite <- Hlast.
           ++ right. by exists (S (S (S i))), d.
        -- by destruct IH as [Hnext _].
Qed.

End ShapeFacts.

(** ** The retry executor *)

(** One turn of the loop on a response of the 500 class, attempts left. *)
Ltac retry_after_server_error Hfetch response :=
  rewrite (loop_retry _ _ _ _ _ _ _ _ _ _ _ _ (http_error response))
    by (try rewrite Hfetch, try_catch_server_error; done || lia).

(** C1, evaluated on the code.  The comment on line 40 says that 4xx errors
    are not retried, but the error thrown on line 42 is caught by the
    [catch] clause of the same [try] statement: a server that answers 404 is
    asked four times under the default configuration, with three
    notifications and three waits, before the error is thrown. *)
Theorem client_error_is_retried :
  fetchWithRetry (fun _ _ _ => Resolved (response_of 404 "Not Found"))
    "/api/status" [] (default_config (Some recorder)) []
  = {| events := [EvFetch 0; EvOnRetry 1 1000; EvSleep 1000;
                  EvFetch 1; EvOnRetry 2 2000; EvSleep 2000;
                  EvFetch 2; EvOnRetry 3 4000; EvSleep 4000;
                  EvFetch 3];
       outcome := Threw (JsError "Error" "HTTP 404: Not Found");
       world := ([(1, 1000); (2, 2000); (3, 4000)] : list (Z * Number.t)) |}.
Proof. reflexivity. Qed.






(** C4: with [maxRetries = n], n not negative, a call settles (it returns a
    response or throws) after at least one and at most n+1 calls of [fetch],
    made in the iterations numbered 0, 1, ... in order, none beyond n. *)
Theorem attempts_bounded {W} fetch url options (retryConfig : RetryConfig W)
    (w : W) (n : Z) :
  0 <= n ->
  maxRetries_of retryConfig = n ->
  let run := fetchWithRetry fetch url options retryConfig w in
  ((exists response, outcome run = Returned response) \/
   (exists error, outcome run = Threw error)) /\
  exists m,
    1 <= m <= n + 1 /\
    fetch_attempts (events run) = seqZ 0 m /\
    length (fetch_attempts (events run)) = Z.to_nat m.
Proof.
  intros Hn Hmax run. split.
  - destruct (outcome run) as [response | error]; [left | right]; eauto.
  - subst run. unfold fetchWithRetry. rewrite Hmax.
    destruct (loop_attempts n (maxDelay_of retryConfig)
                (backoffMultiplier_of retryConfig) (onRetry retryConfig)
                fetch url options 0 (initialDelay_of retryConfig) JsUndefined
                0%nat w) as (m & Hm & Hone & ->).
    exists m. split; [lia |]. split; [done |]. by rewrite length_seqZ.
Qed.

Lemma attempts_bounded_witness :
  let run := fetchWithRetry (answers [500; 404] 200) "/api/status" []
               (status_page_config (Some recorder)) [] in
  ((exists response, outcome run = Returned response) \/
   (exists error, outcome run = Threw error)) /\
  exists m,
    1 <= m <= 3 + 1 /\
    fetch_attempts (events run) = seqZ 0 m /\
    length (fetch_attempts (events run)) = Z.to_nat m.
Proof.
  apply (attempts_bounded (answers [500; 404] 200) "/api/status" []
           (status_page_config (Some recorder)) [] 3).
  - lia.
  - reflexivity.
Defined.

(** C5: with [maxRetries = 3] and a hook, when every call of [fetch] yields
    a response of the 500 class, there are exactly four attempts, three
    notifications and three waits, the fourth attempt is the last event of
    the run, and the error thrown is the one built for the fourth response. *)
Theorem server_errors_exhaust {W} fetch url options (retryConfig : RetryConfig W)
    (hook : @Hook W) (w : W) :
  maxRetries_of retryConfig = 3 ->
  onRetry retryConfig = Some hook ->
  (forall k, (k < 4)%nat -> exists response,
     fetch url options k = Resolved response /\ 500 <= status response < 600) ->
  let run := fetchWithRetry fetch url options retryConfig w in
  let next := nextDelay (maxDelay_of retryConfig) (backoffMultiplier_of retryConfig) in
  let first := initialDelay_of retryConfig in
  fetch_attempts (events run) = [0; 1; 2; 3] /\
  retry_calls (events run) = [(1, first); (2, next first); (3, next (next first))] /\
  waits (events run) = [first; next first; next (next first)] /\
  last (events run) = Some (EvFetch 3) /\
  exists fourth,
    fetch url options 3%nat = Resolved fourth /\
    outcome run = Threw (http_error fourth).
Proof.
  intros Hmax Hhook Hall run next first. subst run. unfold fetchWithRetry.
  rewrite Hmax, Hhook.
  destruct (Hall 0%nat) as (r0 & Hf0 & Hs0); [lia |].
  destruct (Hall 1%nat) as (r1 & Hf1 & Hs1); [lia |].
  destruct (Hall 2%nat) as (r2 & Hf2 & Hs2); [lia |].
  destruct (Hall 3%nat) as (r3 & Hf3 & Hs3); [lia |].
  retry_after_server_error Hf0 r0.
  retry_after_server_error Hf1 r1.
  retry_after_server_error Hf2 r2.
  rewrite (loop_exhausted _ _ _ _ _ _ _ (0 + 1 + 1 + 1) _ _ _ _ (http_error r3))
    by (done || (left; rewrite Hf3, try_catch_server_error; done || lia)).
  simpl. repeat split; try done. by exists r3.
Qed.

Lemma server_errors_exhaust_witness :
  let run := fetchWithRetry (answers [500; 502; 503] 504) "/api/status" []
               (status_page_config (Some recorder)) [] in
  fetch_attempts (events run) = [0; 1; 2; 3] /\
  retry_calls (events run) = [(1, 1000); (2, 2000); (3, 4000)] /\
  waits (events run) = [1000; 2000; 4000] /\
  last (events run) = Some (EvFetch 3) /\
  exists fourth,
    answers [500; 502; 503] 504 "/api/status" [] 3%nat = Resolved fourth /\
    outcome run = Threw (http_error fourth).
Proof.
  apply (server_errors_exhaust (answers [500; 502; 503] 504) "/api/status" []
           (status_page_config (Some recorder)) recorder []).
  - reflexivity.
  - reflexivity.
  - intros k Hk. eexists. split; [reflexivity |]. simpl.
    destruct k as [| [| [| [| k]]]]; simpl; lia.
Defined.

(** C6: with the default delays (initial delay 1000, multiplier 2, and a
    ceiling of at least 2000 as the default 30000 is), at least two retries
    allowed and a hook, the answers 500, 500, 200 make the call return the
    third response after exactly three attempts; the hook is called exactly
    twice, with (1, 1000) and then with (2, 2000). *)
Theorem third_attempt_succeeds {W} fetch url options (retryConfig : RetryConfig W)
    (hook : @Hook W) (w : W) first second third :
  initialDelay_of retryConfig = 1000 ->
  backoffMultiplier_of retryConfig = 2 ->
  Number.le 2000 (maxDelay_of retryConfig) ->
  2 <= maxRetries_of retryConfig ->
  onRetry retryConfig = Some hook ->
  fetch url options 0%nat = Resolved first -> status first = 500 ->
  fetch url options 1%nat = Resolved second -> status second = 500 ->
  fetch url options 2%nat = Resolved third -> status third = 200 ->
  let run := fetchWithRetry fetch url options retryConfig w in
  outcome run = Returned third /\
  fetch_attempts (events run) = [0; 1; 2] /\
  retry_calls (events run) = [(1, 1000); (2, 2000)] /\
  world run = hook 2 2000 (hook 1 1000 w) /\
  events run = [EvFetch 0; EvOnRetry 1 1000; EvSleep 1000;
                EvFetch 1; EvOnRetry 2 2000; EvSleep 2000; EvFetch 2].
Proof.
  intros Hinit Hmult Hceil Hmax Hhook Hf0 Hs0 Hf1 Hs1 Hf2 Hs2 run. subst run.
  unfold fetchWithRetry. rewrite Hinit, Hmult, Hhook.
  retry_after_server_error Hf0 first.
  retry_after_server_error Hf1 second.
  rewrite (loop_return _ _ _ _ _ _ _ (0 + 1 + 1) _ _ _ _ third)
    by (done || lia || (unfold ok; rewrite Hs2; done)).
  unfold nextDelay.
  change (Number.mul 1000 2) with (Number.of_Z 2000).
  by rewrite (min_finite_l 2000 (maxDelay_of retryConfig)).
Qed.

Lemma third_attempt_succeeds_witness :
  let run := fetchWithRetry (answers [500; 500] 200) "/api/status" []
               (default_config (Some recorder)) [] in
  outcome run = Returned (response_of 200 EmptyString) /\
  fetch_attempts (events run) = [0; 1; 2] /\
  retry_calls (events run) = [(1, 1000); (2, 2000)] /\
  world run = recorder 2 2000 (recorder 1 1000 []) /\
  events run = [EvFetch 0; EvOnRetry 1 1000; EvSleep 1000;
                EvFetch 1; EvOnRetry 2 2000; EvSleep 2000; EvFetch 2].
Proof.
  apply (third_attempt_succeeds (answers [500; 500] 200) "/api/status" []
           (default_config (Some recorder)) recorder []
           (response_of 500 EmptyString) (response_of 500 EmptyString) (response_of 200 EmptyString));
    try reflexivity.
  resolve_config.
Defined.

(** C7: with [maxRetries = 0] there is exactly one attempt and nothing else:
    no wait, no call of the hook.  An [ok] response is returned; any other
    response, whatever its status, and any rejection of [fetch] is thrown
    at once. *)
Theorem no_retries_single_attempt {W} fetch url options
    (retryConfig : RetryConfig W) (w : W) :
  maxRetries_of retryConfig = 0 ->
  let run := fetchWithRetry fetch url options retryConfig w in
  events run = [EvFetch 0] /\
  world run = w /\
  outcome run = match fetch url options 0%nat with
                | Resolved response =>
                    if ok response then Returned response
                    else Threw (http_error response)
                | Rejected reason => Threw reason
                end.
Proof.
  intros Hmax run. subst run. unfold fetchWithRetry. rewrite Hmax.
  destruct (fetch url options 0%nat) as [response | reason] eqn:Hfetch.
  - destruct (ok response) eqn:Hok.
    + by rewrite (loop_return _ _ _ _ _ _ _ 0 _ _ _ _ response).
    + rewrite (loop_exhausted _ _ _ _ _ _ _ 0 _ _ _ _ (http_error response));
        [done | done |].
      rewrite Hfetch. unfold try_catch, try_block. rewrite Hok. simpl.
      destruct (_ && _); auto.
  - rewrite (loop_exhausted _ _ _ _ _ _ _ 0 _ _ _ _ reason); [done | done |].
    rewrite Hfetch. by right.
Qed.

Lemma no_retries_single_attempt_witness :
  let run := fetchWithRetry (answers [] 503) "/api/status" []
               {| maxRetries := Some 0; initialDelay := None; maxDelay := None;
                  backoffMultiplier := None; onRetry := Some recorder |} [] in
  events run = [EvFetch 0] /\
  world run = [] /\
  outcome run = match answers [] 503 "/api/status" [] 0%nat with
                | Resolved response =>
                    if ok response then Returned response
                    else Threw (http_error response)
                | Rejected reason => Threw reason
                end.
Proof.
  apply (no_retries_single_attempt (answers [] 503) "/api/status" []
           {| maxRetries := Some 0; initialDelay := None; maxDelay := None;
              backoffMultiplier := None; onRetry := Some recorder |} []).
  reflexivity.
Defined.

(** ** The JSON wrapper *)

(** C9: [fetchJsonWithRetry] adds no attempt, no wait and no notification to
    those of [fetchWithRetry].  When the retry sequence returns a response,
    its body is parsed exactly once, as the last event of the run, and the
    wrapper settles as the parse does (a parse failure is thrown as it is);
    when the retry sequence throws, nothing is parsed and the same error is
    thrown. *)
Theorem body_parsed_once_after_success {W} fetch url options
    (retryConfig : RetryConfig W) (w : W) :
  let fetched := fetchWithRetry fetch url options retryConfig w in
  let run := fetchJsonWithRetry fetch url options retryConfig w in
  fetch_attempts (events run) = fetch_attempts (events fetched) /\
  waits (events run) = waits (events fetched) /\
  retry_calls (events run) = retry_calls (events fetched) /\
  world run = world fetched /\
  match outcome fetched with
  | Returned response =>
      events run = events fetched ++ [EvJson response] /\
      parses (events run) = [response] /\
      outcome run = match json response with
                    | inl data => Returned data
                    | inr error => Threw error
                    end
  | Threw error =>
      events run = events fetched /\
      parses (events run) = [] /\
      outcome run = Threw error
  end.
Proof.
  intros fetched run.
  assert (Hparses : parses (events fetched) = []) by apply loop_parses.
  subst run. unfold fetchJsonWithRetry. fold fetched.
  destruct (outcome fetched) as [response | error]; simpl.
  - unfold fetch_attempts, waits, retry_calls, parses in *.
    rewrite !omap_app, Hparses. simpl. by rewrite !app_nil_r.
  - done.
Qed.

(** ** The status presenter *)

Section PresenterFacts.

Import Dom.

Lemma classList_remove_inactive (l : list string) :
  filter (fun c => c ∈ status_classes) (classList_remove status_classes l) = [].
Proof.
  unfold classList_remove. induction l as [| c l IH]; [done |].
  rewrite (filter_cons (fun c => c ∉ status_classes)).
  destruct (decide (c ∉ status_classes)) as [Hnot | _]; [| done].
  by rewrite filter_cons_False.
Qed.

(** Every class of [classMap] is among the classes that line 109 removes. *)
Lemma classMap_status_class key cls :
  own_property key classMap = Some cls -> cls ∈ status_classes.
Proof.
  unfold classMap, status_classes. simpl.
  repeat case_decide; intros [= <-]; set_solver.
Qed.

Lemma classList_add_removed cls (l : list string) :
  cls ∈ status_classes ->
  classList_add cls (classList_remove status_classes l)
  = classList_remove status_classes l ++ [cls].
Proof.
  intros Hcls. unfold classList_add.
  destruct (decide (cls ∈ classList_remove status_classes l)) as [Hin | _];
    [| done].
  unfold classList_remove in Hin. apply list_elem_of_filter in Hin as [Hnot _].
  done.
Qed.

(** What one call does to an existing target. *)
Lemma showStatus_existing (doc : Document) elementId element message type :
  doc !! elementId = Some element ->
  exists shown,
    (showStatus doc elementId message type).1 !! elementId = Some shown /\
    textContent shown = message /\
    classList shown
    = classList_remove status_classes (classList element)
      ++ match own_property (default "info" type) classMap with
         | Some cls => [cls]
         | None => []
         end /\
    active_status shown
    = match own_property (default "info" type) classMap with
      | Some cls => [cls]
      | None => []
      end.
Proof.
  intros Hdoc. unfold showStatus, get. rewrite Hdoc.
  destruct (own_property (default "info" type) classMap) as [cls |] eqn:Hown.
  - apply classMap_status_class in Hown.
    eexists. cbn [fst]. rewrite lookup_insert_eq. split; [done |].
    cbn [textContent classList]. rewrite classList_add_removed by done.
    repeat split. unfold active_status. cbn [classList].
    rewrite filter_app, classList_remove_inactive.
    by rewrite filter_cons_True.
  - destruct (decide _); eexists; cbn [fst]; rewrite lookup_insert_eq;
      (split; [done |]); cbn [textContent classList]; rewrite app_nil_r;
      repeat split; apply classList_remove_inactive.
Qed.

End PresenterFacts.

(** C8: on an existing target, [showStatus] sets the text to the message,
    removes every recognized status class and then appends the class that
    [classMap] has for the kind, or none when [classMap] has no entry for
    it; afterwards the active status classes are that one class or none, so
    at most one.  Showing kind [running] and then kind [error] leaves
    [status-error] as the only active status class. *)
Theorem showStatus_exclusive (doc : Dom.Document) elementId element message type :
  doc !! elementId = Some element ->
  let mapped := match Dom.own_property (default "info" type) Dom.classMap with
                | Some cls => [cls]
                | None => []
                end in
  (exists shown,
     (Dom.showStatus doc elementId message type).1 !! elementId = Some shown /\
     Dom.textContent shown = message /\
     Dom.classList shown
     = Dom.classList_remove Dom.status_classes (Dom.classList element) ++ mapped /\
     Dom.active_status shown = mapped /\
     (length (Dom.active_status shown) <= 1)%nat) /\
  (forall failure, exists shown,
     (Dom.showStatus (Dom.showStatus doc elementId message (Some "running")).1
        elementId failure (Some "error")).1 !! elementId = Some shown /\
     Dom.textContent shown = failure /\
     Dom.active_status shown = ["status-error"]).
Proof.
  intros Hdoc mapped.
  split.
  - destruct (showStatus_existing doc elementId element message type Hdoc)
      as (shown & H1 & H2 & H3 & H4).
    exists shown. repeat split; try done.
    rewrite H4. subst mapped. destruct (Dom.own_property _ _); simpl; lia.
  - intros failure.
    destruct (showStatus_existing doc elementId element message (Some "running") Hdoc)
      as (running & Hrunning & _).
    destruct (showStatus_existing _ elementId running failure (Some "error") Hrunning)
      as (shown & H1 & H2 & _ & H4).
    by exists shown.
Qed.

Lemma showStatus_exclusive_witness :
  let doc : Dom.Document :=
    {[ "server-status" := {| Dom.textContent := "Loading...";
                             Dom.classList := ["value"; "status-running"] |} ]} in
  let mapped := match Dom.own_property (default "info" (Some "warning")) Dom.classMap with
                | Some cls => [cls]
                | None => []
                end in
  (exists shown,
     (Dom.showStatus doc "server-status" "Retrying" (Some "warning")).1
       !! "server-status" = Some shown /\
     Dom.textContent shown = "Retrying" /\
     Dom.classList shown
     = Dom.classList_remove Dom.status_classes ["value"; "status-running"] ++ mapped /\
     Dom.active_status shown = mapped /\
     (length (Dom.active_status shown) <= 1)%nat) /\
  (forall failure, exists shown,
     (Dom.showStatus (Dom.showStatus doc "server-status" "Retrying" (Some "running")).1
        "server-status" failure (Some "error")).1 !! "server-status" = Some shown /\
     Dom.textContent shown = failure /\
     Dom.active_status shown = ["status-error"]).
Proof.
  intros doc.
  apply (showStatus_exclusive doc "server-status"
           {| Dom.textContent := "Loading...";
              Dom.classList := ["value"; "status-running"] |}
           "Retrying" (Some "warning")).
  reflexivity.
Defined.

(** C10: when no element has the given id, [showStatus] ends normally and
    leaves the whole document as it was, for every message and kind. *)
Theorem showStatus_missing_target (doc : Dom.Document) elementId message type :
  doc !! elementId = None ->
  Dom.showStatus doc elementId message type = (doc, None).
Proof. intros Hdoc. unfold Dom.showStatus. by rewrite Hdoc. Qed.

Lemma showStatus_missing_target_witness :
  Dom.showStatus
    {[ "server-version" := {| Dom.textContent := "1.2.3"; Dom.classList := [] |} ]}
    "server-status" "running" (Some "running")
  = ({[ "server-version" := {| Dom.textContent := "1.2.3"; Dom.classList := [] |} ]},
     None).
Proof.
  apply (showStatus_missing_target
           {[ "server-version" := {| Dom.textContent := "1.2.3";
                                     Dom.classList := [] |} ]}
           "server-status" "running" (Some "running")).
  reflexivity.
Defined.

(** ** More on the retry executor *)

(** X1: when [maxRetries] is not negative, every run is k rounds of a failed
    attempt with its notification and wait, k at most [maxRetries], and then
    one last attempt.  The run returns exactly the [ok] response of that last
    attempt; it throws only when that attempt is the one numbered
    [maxRetries], and then it throws that attempt's own error. *)
Theorem run_shape {W} fetch url options (retryConfig : RetryConfig W) (w : W) :
  0 <= maxRetries_of retryConfig ->
  let run := fetchWithRetry fetch url options retryConfig w in
  exists k : nat,
    Z.of_nat k <= maxRetries_of retryConfig /\
    events run
    = rounds (onRetry retryConfig) (backoffMultiplier_of retryConfig)
        (maxDelay_of retryConfig) k 0 (initialDelay_of retryConfig)
      ++ [EvFetch (Z.of_nat k)] /\
    (forall i, (i < k)%nat -> failure (fetch url options i) <> None) /\
    match outcome run with
    | Returned response =>
        fetch url options k = Resolved response /\ ok response = true
    | Threw error =>
        Z.of_nat k = maxRetries_of retryConfig /\
        failure (fetch url options k) = Some error
    end.
Proof.
  intros Hmax run. subst run. unfold fetchWithRetry.
  destruct (loop_shape (maxRetries_of retryConfig) (maxDelay_of retryConfig)
              (backoffMultiplier_of retryConfig) (onRetry retryConfig)
              fetch url options 0 (initialDelay_of retryConfig) JsUndefined
              0%nat w Hmax) as (k & Hk & Hev & Hfail & Hout).
  exists k. rewrite Z.add_0_l in *. by simpl in *.
Qed.

Lemma run_shape_witness :
  let run := fetchWithRetry (answers [500; 404] 200) "/api/status" []
               (status_page_config (Some recorder)) [] in
  exists k : nat,
    Z.of_nat k <= 3 /\
    events run
    = rounds (Some recorder) 2 10000 k 0 1000 ++ [EvFetch (Z.of_nat k)] /\
    (forall i, (i < k)%nat ->
       failure (answers [500; 404] 200 "/api/status" [] i) <> None) /\
    match outcome run with
    | Returned response =>
        answers [500; 404] 200 "/api/status" [] k = Resolved response /\
        ok response = true
    | Threw error =>
        Z.of_nat k = 3 /\
        failure (answers [500; 404] 200 "/api/status" [] k) = Some error
    end.
Proof.
  apply (run_shape (answers [500; 404] 200) "/api/status" []
           (status_page_config (Some recorder)) []).
  resolve_config.
Defined.

(** X2: when none of the attempts 0 to [maxRetries] yields an [ok] response
    (each is a rejection or a response of any other status), all
    [maxRetries + 1] attempts are made, with [maxRetries] waits that follow
    the backoff rule, and the error thrown is that of the last attempt. *)
Theorem all_failures_exhaust {W} fetch url options (retryConfig : RetryConfig W)
    (w : W) (n : nat) :
  maxRetries_of retryConfig = Z.of_nat n ->
  (forall i, (i <= n)%nat -> failure (fetch url options i) <> None) ->
  let run := fetchWithRetry fetch url options retryConfig w in
  fetch_attempts (events run) = seqZ 0 (Z.of_nat n + 1) /\
  waits (events run)
  = delays (backoffMultiplier_of retryConfig) (maxDelay_of retryConfig) n
      (initialDelay_of retryConfig) /\
  last (events run) = Some (EvFetch (Z.of_nat n)) /\
  exists error,
    failure (fetch url options n) = Some error /\ outcome run = Threw error.
Proof.
  intros Hmax Hfail run. subst run. unfold fetchWithRetry.
  destruct (loop_shape (maxRetries_of retryConfig) (maxDelay_of retryConfig)
              (backoffMultiplier_of retryConfig) (onRetry retryConfig)
              fetch url options 0 (initialDelay_of retryConfig) JsUndefined
              0%nat w ltac:(lia)) as (k & Hk & Hev & _ & Hout).
  simpl in Hout.
  destruct (outcome _) as [response | error].
  - destruct Hout as [Hfetch Hok]. exfalso. apply (Hfail k); [lia |].
    unfold failure. by rewrite Hfetch, Hok.
  - destruct Hout as [Hlast Herr]. assert (k = n) as -> by lia.
    rewrite Hev. unfold fetch_attempts, waits. rewrite !omap_app.
    fold (fetch_attempts (rounds (onRetry retryConfig)
            (backoffMultiplier_of retryConfig) (maxDelay_of retryConfig) n 0
            (initialDelay_of retryConfig))).
    fold (waits (rounds (onRetry retryConfig)
            (backoffMultiplier_of retryConfig) (maxDelay_of retryConfig) n 0
            (initialDelay_of retryConfig))).
    rewrite rounds_fetch_attempts, rounds_waits, last_snoc. simpl.
    rewrite app_nil_r, Z.add_0_l. split; [| split; [done | split; [done |]]].
    + rewrite seqZ_app by lia. simpl. do 2 f_equal.
    + by exists error.
Qed.

Lemma all_failures_exhaust_witness :
  let run := fetchWithRetry (answers [500; 404; 302] 503) "/api/status" []
               (status_page_config (Some recorder)) [] in
  fetch_attempts (events run) = seqZ 0 (Z.of_nat 3 + 1) /\
  waits (events run) = delays 2 10000 3 1000 /\
  last (events run) = Some (EvFetch (Z.of_nat 3)) /\
  exists error,
    failure (answers [500; 404; 302] 503 "/api/status" [] 3%nat) = Some error /\
    outcome run = Threw error.
Proof.
  apply (all_failures_exhaust (answers [500; 404; 302] 503) "/api/status" []
           (status_page_config (Some recorder)) [] 3).
  - reflexivity.
  - intros i Hi. destruct i as [| [| [| [| i]]]]; [done | done | done | done | lia].
Defined.

(** The run up to the first [ok] response. *)
Lemma fetchWithRetry_first_success {W} fetch url options
    (retryConfig : RetryConfig W) (w : W) (j : nat) response :
  Z.of_nat j <= maxRetries_of retryConfig ->
  (forall i, (i < j)%nat -> failure (fetch url options i) <> None) ->
  fetch url options j = Resolved response ->
  ok response = true ->
  outcome (fetchWithRetry fetch url options retryConfig w) = Returned response /\
  events (fetchWithRetry fetch url options retryConfig w)
  = rounds (onRetry retryConfig) (backoffMultiplier_of retryConfig)
      (maxDelay_of retryConfig) j 0 (initialDelay_of retryConfig)
    ++ [EvFetch (Z.of_nat j)].
Proof.
  intros Hj Hbefore Hfetch Hok. unfold fetchWithRetry.
  destruct (loop_shape (maxRetries_of retryConfig) (maxDelay_of retryConfig)
              (backoffMultiplier_of retryConfig) (onRetry retryConfig)
              fetch url options 0 (initialDelay_of retryConfig) JsUndefined
              0%nat w ltac:(lia)) as (k & Hk & Hev & Hfail & Hout).
  simpl in Hout.
  assert (Hnone : failure (fetch url options j) = None)
    by (unfold failure; by rewrite Hfetch, Hok).
  assert (k = j) as ->.
  { destruct (Nat.lt_trichotomy k j) as [Hlt | [Heq | Hgt]]; [| done |].
    - exfalso. destruct (outcome _) as [r | e].
      + destruct Hout as [Hf Ho]. apply (Hbefore k Hlt).
        unfold failure. by rewrite Hf, Ho.
      + lia.
    - exfalso. by apply (Hfail j Hgt). }
  rewrite Z.add_0_l in Hev. split; [| done].
  destruct (outcome _) as [r | e].
  - destruct Hout as [Hf _]. rewrite Hfetch in Hf. by injection Hf as ->.
  - destruct Hout as [_ He]. congruence.
Qed.

(** X3: when attempt j, within the allowance, is the first to yield an [ok]
    response, the run is j rounds and that attempt: the response is returned
    after j + 1 attempts and j waits. *)
Theorem first_success_returns {W} fetch url options (retryConfig : RetryConfig W)
    (w : W) (j : nat) response :
  Z.of_nat j <= maxRetries_of retryConfig ->
  (forall i, (i < j)%nat -> failure (fetch url options i) <> None) ->
  fetch url options j = Resolved response ->
  ok response = true ->
  let run := fetchWithRetry fetch url options retryConfig w in
  outcome run = Returned response /\
  events run
  = rounds (onRetry retryConfig) (backoffMultiplier_of retryConfig)
      (maxDelay_of retryConfig) j 0 (initialDelay_of retryConfig)
    ++ [EvFetch (Z.of_nat j)] /\
  fetch_attempts (events run) = seqZ 0 (Z.of_nat j + 1) /\
  waits (events run)
  = delays (backoffMultiplier_of retryConfig) (maxDelay_of retryConfig) j
      (initialDelay_of retryConfig).
Proof.
  intros Hj Hbefore Hfetch Hok run. subst run.
  destruct (fetchWithRetry_first_success fetch url options retryConfig w j
              response Hj Hbefore Hfetch Hok) as [Hout Hev].
  split; [done |]. split; [done |]. rewrite Hev. split.
  - unfold fetch_attempts. rewrite omap_app.
    fold (fetch_attempts (rounds (onRetry retryConfig)
            (backoffMultiplier_of retryConfig) (maxDelay_of retryConfig) j 0
            (initialDelay_of retryConfig))).
    rewrite rounds_fetch_attempts, seqZ_app by lia. simpl.
    by rewrite Z.add_0_l.
  - unfold waits. rewrite omap_app.
    fold (waits (rounds (onRetry retryConfig)
            (backoffMultiplier_of retryConfig) (maxDelay_of retryConfig) j 0
            (initialDelay_of retryConfig))).
    rewrite rounds_waits. simpl. by rewrite app_nil_r.
Qed.

Lemma first_success_returns_witness :
  let run := fetchWithRetry (answers [500; 404] 200) "/api/status" []
               (status_page_config (Some recorder)) [] in
  outcome run = Returned (response_of 200 EmptyString) /\
  events run
  = rounds (Some recorder) 2 10000 2 0 1000 ++ [EvFetch (Z.of_nat 2)] /\
  fetch_attempts (events run) = seqZ 0 (Z.of_nat 2 + 1) /\
  waits (events run) = delays 2 10000 2 1000.
Proof.
  apply (first_success_returns (answers [500; 404] 200) "/api/status" []
           (status_page_config (Some recorder)) [] 2
           (response_of 200 EmptyString)).
  - resolve_config.
  - intros i Hi. destruct i as [| [| i]]; [done | done | lia].
  - reflexivity.
  - reflexivity.
Defined.

(** X4: with a negative [maxRetries] the loop body never runs: no request is
    made, nothing is waited for, and what is thrown is the initial value of
    [lastError], [undefined]; the JSON wrapper throws the same. *)
Theorem negative_maxRetries_throws_undefined {W} fetch url options
    (retryConfig : RetryConfig W) (w : W) :
  maxRetries_of retryConfig < 0 ->
  fetchWithRetry fetch url options retryConfig w
  = {| events := []; outcome := Threw JsUndefined; world := w |} /\
  fetchJsonWithRetry fetch url options retryConfig w
  = {| events := []; outcome := Threw JsUndefined; world := w |}.
Proof.
  intros Hneg.
  assert (Hrun : fetchWithRetry fetch url options retryConfig w
                 = {| events := []; outcome := Threw JsUndefined; world := w |}).
  { unfold fetchWithRetry. rewrite loop_step.
    by replace (0 <=? maxRetries_of retryConfig) with false by lia. }
  split; [done |]. unfold fetchJsonWithRetry. by rewrite Hrun.
Qed.

Lemma negative_maxRetries_throws_undefined_witness :
  fetchWithRetry (answers [] 200) "/api/status" []
    {| maxRetries := Some (-1); initialDelay := None; maxDelay := None;
       backoffMultiplier := None; onRetry := Some recorder |} []
  = {| events := []; outcome := Threw JsUndefined; world := [] |} /\
  fetchJsonWithRetry (answers [] 200) "/api/status" []
    {| maxRetries := Some (-1); initialDelay := None; maxDelay := None;
       backoffMultiplier := None; onRetry := Some recorder |} []
  = {| events := []; outcome := Threw JsUndefined; world := [] |}.
Proof.
  apply (negative_maxRetries_throws_undefined (answers [] 200) "/api/status" []
           {| maxRetries := Some (-1); initialDelay := None; maxDelay := None;
              backoffMultiplier := None; onRetry := Some recorder |} []).
  resolve_config.
Defined.

(** X6: the hook is called once before each wait and at no other time.
    With a hook, every notification in the run is followed at once by a wait
    of the delay it announced, and every wait is preceded at once by a
    notification of its delay; the i-th notification (counting from 1)
    carries the number i, which is the number of the attempt that failed
    plus one. *)
Theorem notifications_match_waits {W} fetch url options
    (retryConfig : RetryConfig W) (hook : @Hook W) (w : W) :
  onRetry retryConfig = Some hook ->
  let run := fetchWithRetry fetch url options retryConfig w in
  (forall (i : nat) attempt delay,
     events run !! i = Some (EvOnRetry attempt delay) ->
     events run !! S i = Some (EvSleep delay)) /\
  (forall (i : nat) delay,
     events run !! i = Some (EvSleep delay) ->
     exists (i' : nat) attempt,
       i = S i' /\ events run !! i' = Some (EvOnRetry attempt delay)) /\
  retry_calls (events run)
  = zip (seqZ 1 (Z.of_nat (length (waits (events run))))) (waits (events run)).
Proof.
  intros Hhook run. subst run. unfold fetchWithRetry. rewrite Hhook.
  destruct (decide (0 <= maxRetries_of retryConfig)) as [Hmax | Hneg].
  - destruct (loop_shape (maxRetries_of retryConfig) (maxDelay_of retryConfig)
                (backoffMultiplier_of retryConfig) (Some hook)
                fetch url options 0 (initialDelay_of retryConfig) JsUndefined
                0%nat w Hmax) as (k & _ & -> & _).
    split; [| split].
    + intros i attempt delay Hev.
      by apply (shape_neighbours _ _ (Some hook)) in Hev.
    + intros i delay Hev.
      by apply (shape_neighbours _ _ (Some hook)) in Hev as [_ Hev].
    + unfold retry_calls, waits. rewrite !omap_app.
      fold (retry_calls (rounds (Some hook) (backoffMultiplier_of retryConfig)
              (maxDelay_of retryConfig) k 0 (initialDelay_of retryConfig))).
      fold (waits (rounds (Some hook) (backoffMultiplier_of retryConfig)
              (maxDelay_of retryConfig) k 0 (initialDelay_of retryConfig))).
      rewrite rounds_retry_calls, rounds_waits. simpl.
      by rewrite !app_nil_r, delays_length.
  - rewrite loop_step.
    by replace (0 <=? maxRetries_of retryConfig) with false by lia.
Qed.

Lemma notifications_match_waits_witness :
  let run := fetchWithRetry (answers [500; 404] 200) "/api/status" []
               (status_page_config (Some recorder)) [] in
  (forall (i : nat) attempt delay,
     events run !! i = Some (EvOnRetry attempt delay) ->
     events run !! S i = Some (EvSleep delay)) /\
  (forall (i : nat) delay,
     events run !! i = Some (EvSleep delay) ->
     exists (i' : nat) attempt,
       i = S i' /\ events run !! i' = Some (EvOnRetry attempt delay)) /\
  retry_calls (events run)
  = zip (seqZ 1 (Z.of_nat (length (waits (events run))))) (waits (events run)).
Proof.
  apply (notifications_match_waits (answers [500; 404] 200) "/api/status" []
           (status_page_config (Some recorder)) recorder []).
  reflexivity.
Defined.

(** X7: when [maxRetries] is not negative, every attempt but the last is
    followed by exactly one wait and then by the next attempt, and no wait
    follows the last attempt.  The first event is attempt 0 and the last
    event is an attempt; an attempt that is not the last event is followed
    (after the notification, when there is a hook) by a wait, and that wait
    by the attempt with the next number; every wait is followed at once by
    an attempt.  So there is one attempt more than there are waits. *)
Theorem one_wait_between_attempts {W} fetch url options
    (retryConfig : RetryConfig W) (w : W) :
  0 <= maxRetries_of retryConfig ->
  let run := fetchWithRetry fetch url options retryConfig w in
  events run !! 0%nat = Some (EvFetch 0) /\
  (exists before attempt, events run = before ++ [EvFetch attempt]) /\
  (forall (i : nat) attempt,
     events run !! i = Some (EvFetch attempt) ->
     S i = length (events run) \/
     exists (s : nat) delay,
       (s = S i \/
        s = S (S i) /\ exists number,
          events run !! S i = Some (EvOnRetry number delay)) /\
       events run !! s = Some (EvSleep delay) /\
       events run !! S s = Some (EvFetch (attempt + 1))) /\
  (forall (i : nat) delay,
     events run !! i = Some (EvSleep delay) ->
     exists attempt, events run !! S i = Some (EvFetch attempt)) /\
  length (fetch_attempts (events run)) = S (length (waits (events run))).
Proof.
  intros Hmax run. subst run. unfold fetchWithRetry.
  destruct (loop_shape (maxRetries_of retryConfig) (maxDelay_of retryConfig)
              (backoffMultiplier_of retryConfig) (onRetry retryConfig)
              fetch url options 0 (initialDelay_of retryConfig) JsUndefined
              0%nat w Hmax) as (k & _ & -> & _).
  split; [apply shape_head |]. split; [by eexists _, _ |].
  split; [| split].
  - intros i attempt Hev. apply shape_neighbours in Hev.
    destruct Hev as [Hlast | (s & delay & Hs & Hwait & Hnext)]; [by left |].
    right. exists s, delay. split; [| done].
    destruct (onRetry retryConfig); [| by left].
    destruct Hs as [-> Hn]. right. split; [done |]. by eexists.
  - intros i delay Hev. by apply shape_neighbours in Hev as [Hev _].
  - unfold fetch_attempts, waits. rewrite !omap_app.
    fold (fetch_attempts (rounds (onRetry retryConfig)
            (backoffMultiplier_of retryConfig) (maxDelay_of retryConfig) k 0
            (initialDelay_of retryConfig))).
    fold (waits (rounds (onRetry retryConfig)
            (backoffMultiplier_of retryConfig) (maxDelay_of retryConfig) k 0
            (initialDelay_of retryConfig))).
    rewrite rounds_fetch_attempts, rounds_waits. simpl.
    rewrite !length_app, length_seqZ, delays_length. simpl. lia.
Qed.

Lemma one_wait_between_attempts_witness :
  let run := fetchWithRetry (answers [500; 404] 200) "/api/status" []
               (status_page_config (Some recorder)) [] in
  events run !! 0%nat = Some (EvFetch 0) /\
  (exists before attempt, events run = before ++ [EvFetch attempt]) /\
  (forall (i : nat) attempt,
     events run !! i = Some (EvFetch attempt) ->
     S i = length (events run) \/
     exists (s : nat) delay,
       (s = S i \/
        s = S (S i) /\ exists number,
          events run !! S i = Some (EvOnRetry number delay)) /\
       events run !! s = Some (EvSleep delay) /\
       events run !! S s = Some (EvFetch (attempt + 1))) /\
  (forall (i : nat) delay,
     events run !! i = Some (EvSleep delay) ->
     exists attempt, events run !! S i = Some (EvFetch attempt)) /\
  length (fetch_attempts (events run)) = S (length (waits (events run))).
Proof.
  apply (one_wait_between_attempts (answers [500; 404] 200) "/api/status" []
           (status_page_config (Some recorder)) []).
  resolve_config.
Defined.

(** X8: with finite numbers, a multiplier of at least 1 and an initial delay
    that is a duration no greater than [maxDelay], the time waited in one
    call, all waits together, is at most [maxRetries] times [maxDelay]; the
    durations are added exactly, as whole numbers of the unit 2^-1074 ms. *)
Theorem total_wait_bounded {W} fetch url options (retryConfig : RetryConfig W)
    (w : W) :
  0 <= maxRetries_of retryConfig ->
  Number.finite (backoffMultiplier_of retryConfig) = true ->
  Number.finite (initialDelay_of retryConfig) = true ->
  Number.finite (maxDelay_of retryConfig) = true ->
  Number.le 1 (backoffMultiplier_of retryConfig) ->
  Number.le 0 (initialDelay_of retryConfig) ->
  Number.le (initialDelay_of retryConfig) (maxDelay_of retryConfig) ->
  total (Number.units
           <$> waits (events (fetchWithRetry fetch url options retryConfig w)))
  <= maxRetries_of retryConfig * Number.units (maxDelay_of retryConfig).
Proof.
  intros Hmax Hfm Hfi Hfc Hmult Hpos Hceil. unfold fetchWithRetry.
  destruct (loop_shape (maxRetries_of retryConfig) (maxDelay_of retryConfig)
              (backoffMultiplier_of retryConfig) (onRetry retryConfig)
              fetch url options 0 (initialDelay_of retryConfig) JsUndefined
              0%nat w Hmax) as (k & Hk & -> & _).
  unfold waits. rewrite omap_app.
  fold (waits (rounds (onRetry retryConfig)
          (backoffMultiplier_of retryConfig) (maxDelay_of retryConfig) k 0
          (initialDelay_of retryConfig))).
  rewrite rounds_waits. simpl. rewrite app_nil_r.
  pose proof (delays_total (backoffMultiplier_of retryConfig)
                (maxDelay_of retryConfig) k (initialDelay_of retryConfig)
                Hfm Hmult Hfc Hfi Hpos Hceil) as Htotal.
  pose proof (units_mono 0 (maxDelay_of retryConfig) eq_refl Hfc eq_refl
                (SFleb_trans _ _ _ Hpos Hceil)) as Hunits.
  change (Number.units 0) with 0 in Hunits. nia.
Qed.

Lemma total_wait_bounded_witness :
  total (Number.units
           <$> waits (events (fetchWithRetry (answers [] 503) "/api/status" []
                                (status_page_config (Some recorder)) [])))
  <= 3 * Number.units 10000.
Proof.
  apply (total_wait_bounded (answers [] 503) "/api/status" []
           (status_page_config (Some recorder)) []).
  - resolve_config.
  - reflexivity.
  - reflexivity.
  - reflexivity.
  - reflexivity.
  - reflexivity.
  - reflexivity.
Defined.



(** ** More on the JSON wrapper *)

(** X10: when attempt j, within the allowance, is the first to yield an [ok]
    response, [fetchJsonWithRetry] makes those j + 1 attempts, parses that
    response as its last step and settles as the parse does: it returns the
    parsed data, or throws the parse error without another attempt. *)
Theorem json_of_first_success {W} fetch url options (retryConfig : RetryConfig W)
    (w : W) (j : nat) response :
  Z.of_nat j <= maxRetries_of retryConfig ->
  (forall i, (i < j)%nat -> failure (fetch url options i) <> None) ->
  fetch url options j = Resolved response ->
  ok response = true ->
  let run := fetchJsonWithRetry fetch url options retryConfig w in
  events run
  = rounds (onRetry retryConfig) (backoffMultiplier_of retryConfig)
      (maxDelay_of retryConfig) j 0 (initialDelay_of retryConfig)
    ++ [EvFetch (Z.of_nat j); EvJson response] /\
  outcome run = match json response with
                | inl data => Returned data
                | inr error => Threw error
                end.
Proof.
  intros Hj Hbefore Hfetch Hok run. subst run.
  destruct (fetchWithRetry_first_success fetch url options retryConfig w j
              response Hj Hbefore Hfetch Hok) as [Hout Hev].
  unfold fetchJsonWithRetry. rewrite Hout, Hev. simpl.
  by rewrite <- app_assoc.
Qed.

Lemma json_of_first_success_witness :
  let run := fetchJsonWithRetry (answers [500] 200) "/api/status" []
               (status_page_config (Some recorder)) [] in
  events run
  = rounds (Some recorder) 2 10000 1 0 1000
    ++ [EvFetch (Z.of_nat 1); EvJson (response_of 200 EmptyString)] /\
  outcome run = match json (response_of 200 EmptyString) with
                | inl data => Returned data
                | inr error => Threw error
                end.
Proof.
  apply (json_of_first_success (answers [500] 200) "/api/status" []
           (status_page_config (Some recorder)) [] 1
           (response_of 200 EmptyString)).
  - resolve_config.
  - intros i Hi. destruct i as [| i]; [done | lia].
  - reflexivity.
  - reflexivity.
Defined.

(** ** More on the status presenter *)

Section MorePresenterFacts.

Import Dom.

Lemma classList_remove_idem (l : list string) :
  classList_remove status_classes (classList_remove status_classes l)
  = classList_remove status_classes l.
Proof.
  unfold classList_remove. rewrite list_filter_filter.
  apply list_filter_iff. tauto.
Qed.

Lemma classList_remove_added cls (l : list string) :
  cls ∈ status_classes ->
  classList_remove status_classes
    (classList_add cls (classList_remove status_classes l))
  = classList_remove status_classes l.
Proof.
  intros Hcls. rewrite classList_add_removed by done.
  unfold classList_remove at 1. rewrite filter_app.
  fold (classList_remove status_classes (classList_remove status_classes l)).
  rewrite classList_remove_idem, filter_cons_False, filter_nil by tauto.
  by rewrite app_nil_r.
Qed.

(** No key of [classMap] is the name of an inherited property. *)
Lemma classMap_key_not_inherited key cls :
  own_property key classMap = Some cls -> key ∉ object_prototype_keys.
Proof.
  unfold classMap, object_prototype_keys. simpl.
  repeat case_decide; try discriminate; subst key; intros _;
    apply (bool_decide_unpack _); by vm_compute.
Qed.

Lemma classList_remove_NoDup (l : list string) :
  NoDup l -> NoDup (classList_remove status_classes l).
Proof. apply NoDup_filter. Qed.

End MorePresenterFacts.

(** X11: the last call wins.  A call of [showStatus] leaves the document, and
    ends, exactly as if the calls made before it on the same target had not
    happened. *)
Theorem showStatus_last_call_wins (doc : Dom.Document) elementId
    earlier earlier_type message type :
  Dom.showStatus (Dom.showStatus doc elementId earlier earlier_type).1
    elementId message type
  = Dom.showStatus doc elementId message type.
Proof.
  unfold Dom.showStatus at 2 3.
  destruct (doc !! elementId) as [element |] eqn:Hdoc.
  - assert (Hagain : forall (e : Dom.Element),
      Dom.classList_remove Dom.status_classes (Dom.classList e)
      = Dom.classList_remove Dom.status_classes (Dom.classList element) ->
      Dom.showStatus (<[elementId := e]> doc) elementId message type
      = match Dom.get Dom.classMap (default "info" type) with
        | Dom.PropString cls =>
            (<[elementId := {| Dom.textContent := message;
                               Dom.classList :=
                                 Dom.classList_add cls
                                   (Dom.classList_remove Dom.status_classes
                                      (Dom.classList element)) |}]> doc, None)
        | Dom.PropInherited =>
            (<[elementId := {| Dom.textContent := message;
                               Dom.classList :=
                                 Dom.classList_remove Dom.status_classes
                                   (Dom.classList element) |}]> doc,
             Some (JsError "InvalidCharacterError" "token contains white space"))
        | Dom.PropUndefined =>
            (<[elementId := {| Dom.textContent := message;
                               Dom.classList :=
                                 Dom.classList_remove Dom.status_classes
                                   (Dom.classList element) |}]> doc, None)
        end).
    { intros e He. unfold Dom.showStatus. rewrite lookup_insert_eq, He.
      destruct (Dom.get _ _); by rewrite insert_insert_eq. }
    unfold Dom.get at 1.
    destruct (Dom.own_property (default "info" earlier_type) Dom.classMap)
      as [cls |] eqn:Hown.
    + apply Hagain. cbn [Dom.classList].
      apply classList_remove_added. by apply classMap_status_class in Hown.
    + destruct (decide _); apply Hagain; cbn [Dom.classList];
        apply classList_remove_idem.
  - cbn [fst]. unfold Dom.showStatus. by rewrite Hdoc.
Qed.

(** X12: [showStatus] changes its target only, and only its text and status
    classes: every other element stays as it was, the target keeps its other
    classes in their order, and a class list without duplicates stays
    without duplicates. *)
Theorem showStatus_keeps_the_rest (doc : Dom.Document) elementId element
    message type other :
  doc !! elementId = Some element ->
  other <> elementId ->
  (Dom.showStatus doc elementId message type).1 !! other = doc !! other /\
  exists shown,
    (Dom.showStatus doc elementId message type).1 !! elementId = Some shown /\
    Dom.classList_remove Dom.status_classes (Dom.classList shown)
    = Dom.classList_remove Dom.status_classes (Dom.classList element) /\
    (NoDup (Dom.classList element) -> NoDup (Dom.classList shown)).
Proof.
  intros Hdoc Hother. unfold Dom.showStatus, Dom.get. rewrite Hdoc.
  destruct (Dom.own_property (default "info" type) Dom.classMap)
    as [cls |] eqn:Hown.
  - apply classMap_status_class in Hown. cbn [fst].
    rewrite lookup_insert_ne, lookup_insert_eq by done. split; [done |].
    eexists. split; [done |]. cbn [Dom.classList]. split.
    + by apply classList_remove_added.
    + intros Hnodup. rewrite classList_add_removed by done.
      apply NoDup_app. split; [by apply classList_remove_NoDup |].
      split; [| apply NoDup_singleton].
      intros c Hc ->%list_elem_of_singleton.
      unfold Dom.classList_remove in Hc.
      by apply list_elem_of_filter in Hc as [Hnot _].
  - destruct (decide _); cbn [fst];
      rewrite lookup_insert_ne, lookup_insert_eq by done;
      (split; [done |]); eexists; (split; [done |]); cbn [Dom.classList];
      (split; [apply classList_remove_idem | apply classList_remove_NoDup]).
Qed.

Lemma showStatus_keeps_the_rest_witness :
  let doc : Dom.Document :=
    {[ "server-status" := {| Dom.textContent := "Loading...";
                             Dom.classList := ["value"; "status-running"] |} ]} in
  (Dom.showStatus doc "server-status" "Retrying" (Some "warning")).1
    !! "server-version" = doc !! "server-version" /\
  exists shown,
    (Dom.showStatus doc "server-status" "Retrying" (Some "warning")).1
      !! "server-status" = Some shown /\
    Dom.classList_remove Dom.status_classes (Dom.classList shown)
    = Dom.classList_remove Dom.status_classes ["value"; "status-running"] /\
    (NoDup ["value"; "status-running"] -> NoDup (Dom.classList shown)).
Proof.
  intros doc.
  apply (showStatus_keeps_the_rest doc "server-status"
           {| Dom.textContent := "Loading...";
              Dom.classList := ["value"; "status-running"] |}
           "Retrying" (Some "warning") "server-version").
  - reflexivity.
  - discriminate.
Defined.

(** X13: [showStatus] ends with an exception exactly when the target exists
    and the kind is the name of a property that the object literal
    [classMap] inherits ([constructor], [toString], [__proto__], ...); in
    every other case it returns normally. *)
Theorem showStatus_throws_iff (doc : Dom.Document) elementId message type :
  (Dom.showStatus doc elementId message type).2 <> None <->
  is_Some (doc !! elementId) /\
  default "info" type ∈ Dom.object_prototype_keys.
Proof.
  unfold Dom.showStatus, Dom.get.
  destruct (doc !! elementId) as [element |] eqn:Hdoc.
  - destruct (Dom.own_property (default "info" type) Dom.classMap)
      as [cls |] eqn:Hown.
    + apply classMap_key_not_inherited in Hown. cbn [snd]. split; [done |].
      by intros [_ Hin].
    + destruct (decide _) as [Hin | Hnot]; cbn [snd].
      * split; [by intros _; split; [eexists |] | done].
      * split; [done | by intros [_ Hin]].
  - cbn [snd]. split; [done | by intros [[e He] _]].
Qed.

(** ** The retry message *)

Lemma check_from_true check count : forall z x,
  check_from check count z = true ->
  z <= x < z + Z.of_nat count -> check x = true.
Proof.
  induction count as [| count IH]; intros z x Hall Hx; [lia |].
  cbn [check_from] in Hall. apply andb_true_iff in Hall as [Hz Hrest].
  destruct (decide (x = z)) as [-> | Hne]; [done |].
  apply (IH (z + 1)); [done | lia].
Qed.

Lemma delays_to_30000_within :
  check_from tenths_within (Z.to_nat 30001) 0 = true.
Proof. vm_compute. reflexivity. Qed.

Lemma attempts_to_1000_decimal :
  check_from decimal_text (Z.to_nat 1001) 0 = true.
Proof. vm_compute. reflexivity. Qed.

(** X14: for an attempt number from 0 to 1000 and a delay of 0 to 30000 whole
    milliseconds, the message is [Retrying (attempt A) in S.Ts...] with A the
    attempt in decimal and S.T a number of tenths of a second that is within
    0.05 s of the delay, hence the delay itself when it is a whole number of
    tenths. *)
Theorem formatRetryMessage_shows_seconds attempt delay :
  0 <= attempt <= 1000 ->
  0 <= delay <= 30000 ->
  exists n,
    100 * n - 50 <= delay <= 100 * n + 50 /\
    (delay mod 100 = 0 -> n = delay / 100) /\
    formatRetryMessage attempt delay
    = "Retrying (attempt " +:+ pretty attempt +:+ ") in "
      +:+ (pretty (n / 10) +:+ "." +:+ pretty (n mod 10)) +:+ "s...".
Proof.
  intros Hattempt Hdelay.
  pose proof (check_from_true _ _ 0 attempt attempts_to_1000_decimal
                ltac:(lia)) as Ha.
  pose proof (check_from_true _ _ 0 delay delays_to_30000_within
                ltac:(lia)) as Hd.
  unfold decimal_text in Ha. apply String.eqb_eq in Ha.
  unfold formatRetryMessage. rewrite Ha. unfold tenths_within in Hd.
  destruct (Number.div _ _) as [sign | | | sign m e]; try discriminate.
  - exists 0. assert (delay = 0) as -> by lia. by repeat split.
  - destruct sign; [discriminate |].
    apply andb_true_iff in Hd as [Hsmall Hnear].
    exists (Number.nearest_tenths m e). split; [lia |]. split.
    + intros Hexact. apply Z.mod_divide in Hexact as [q ->]; [| lia].
      rewrite Z.div_mul by lia. lia.
    + unfold Number.toFixed1, Number.tenths.
      apply negb_true_iff in Hsmall. by rewrite Hsmall.
Qed.

Lemma formatRetryMessage_shows_seconds_witness :
  exists n,
    100 * n - 50 <= 4000 <= 100 * n + 50 /\
    (4000 mod 100 = 0 -> n = 4000 / 100) /\
    formatRetryMessage 2 4000
    = "Retrying (attempt " +:+ pretty 2 +:+ ") in "
      +:+ (pretty (n / 10) +:+ "." +:+ pretty (n mod 10)) +:+ "s...".
Proof.
  apply (formatRetryMessage_shows_seconds 2 4000).
  - lia.
  - lia.
Defined.

(** ** Shared facts about whole runs *)

Lemma fetchWithRetry_world {W} fetch url options (retryConfig : RetryConfig W)
    (w : W) :
  world (fetchWithRetry fetch url options retryConfig w)
  = notified (onRetry retryConfig)
      (retry_calls (events (fetchWithRetry fetch url options retryConfig w))) w.
Proof. unfold fetchWithRetry. apply loop_world. Qed.

Lemma fetchWithRetry_all_failures {W} fetch url options
    (retryConfig : RetryConfig W) (w : W) (n : nat) :
  maxRetries_of retryConfig = Z.of_nat n ->
  (forall i, (i <= n)%nat -> failure (fetch url options i) <> None) ->
  events (fetchWithRetry fetch url options retryConfig w)
  = rounds (onRetry retryConfig) (backoffMultiplier_of retryConfig)
      (maxDelay_of retryConfig) n 0 (initialDelay_of retryConfig)
    ++ [EvFetch (Z.of_nat n)] /\
  exists error,
    failure (fetch url options n) = Some error /\
    outcome (fetchWithRetry fetch url options retryConfig w) = Threw error.
Proof.
  intros Hmax Hfail. unfold fetchWithRetry.
  destruct (loop_shape (maxRetries_of retryConfig) (maxDelay_of retryConfig)
              (backoffMultiplier_of retryConfig) (onRetry retryConfig)
              fetch url options 0 (initialDelay_of retryConfig) JsUndefined
              0%nat w ltac:(lia)) as (k & Hk & Hev & _ & Hout).
  simpl in Hout. destruct (outcome _) as [response | error].
  - destruct Hout as [Hfetch Hok]. exfalso. apply (Hfail k); [lia |].
    unfold failure. by rewrite Hfetch, Hok.
  - destruct Hout as [Hlast Herr]. assert (k = n) as -> by lia.
    rewrite Z.add_0_l in Hev. split; [done | by exists error].
Qed.

Lemma retry_calls_of_run {W} (hook : option (@Hook W)) multiplier ceiling k
    first attempt :
  retry_calls (rounds hook multiplier ceiling k 0 first ++ [EvFetch attempt])
  = match hook with
    | Some _ => zip (seqZ 1 (Z.of_nat k)) (delays multiplier ceiling k first)
    | None => []
    end.
Proof.
  unfold retry_calls. rewrite omap_app.
  fold (retry_calls (rounds hook multiplier ceiling k 0 first)).
  rewrite rounds_retry_calls. simpl. rewrite app_nil_r.
  by destruct hook.
Qed.

(** ** The status page *)

Section PageFacts.

Import Page.

Local Abbreviation status_id := "server-status".
Local Abbreviation version_id := "server-version".

Lemma alter_present {A} (f : A -> A) (m : gmap string A) i x :
  m !! i = Some x -> alter f i m = <[i := f x]> m.
Proof.
  intros Hx. rewrite <- (insert_id m i x) at 1 by done.
  by rewrite alter_insert_eq.
Qed.

Lemma present_true p elementId :
  present elementId p = true <-> is_Some (document p !! elementId).
Proof.
  unfold present. destruct (document p !! elementId) as [e |];
    split; intros H; try done; try (by eexists); by destruct H.
Qed.

(** [Dom.showStatus] on a target whose other classes are just [value]. *)
Lemma Dom_showStatus_value (doc : Dom.Document) elementId element message kind :
  doc !! elementId = Some element ->
  Dom.classList_remove Dom.status_classes (Dom.classList element) = ["value"] ->
  Dom.showStatus doc elementId message (Some kind)
  = (<[elementId :=
         {| Dom.textContent := message;
            Dom.classList :=
              "value" :: match Dom.own_property kind Dom.classMap with
                         | Some cls => [cls]
                         | None => []
                         end |}]> doc,
     match Dom.get Dom.classMap kind with
     | Dom.PropInherited =>
         Some (JsError "InvalidCharacterError" "token contains white space")
     | _ => None
     end).
Proof.
  intros Hdoc Hvalue. unfold Dom.showStatus, Dom.get.
  change (default "info" (Some kind)) with kind. rewrite Hdoc.
  destruct (Dom.own_property kind Dom.classMap) as [cls |] eqn:Hown.
  - apply classMap_status_class in Hown. cbv beta iota.
    rewrite classList_add_removed by done. by rewrite Hvalue.
  - rewrite Hvalue. by destruct (decide _).
Qed.

(** The page after the notifications of a request sequence that started
    from a page whose status element, if there is one, has no child and no
    other class than [value]: the last notification shows, and each one has
    left its line on the console. *)
Lemma page_after_retries (q : State) (calls : list (Z * Number.t)) :
  (present status_id q = true ->
   children q !! status_id = None /\
   exists element,
     document q !! status_id = Some element /\
     Dom.classList_remove Dom.status_classes (Dom.classList element) = ["value"]) ->
  foldl (fun w call => on_retry call.1 call.2 w) q calls
  = {| document :=
         match last calls with
         | Some call =>
             if present status_id q
             then <[status_id :=
                      {| Dom.textContent := formatRetryMessage call.1 call.2;
                         Dom.classList := ["value"; "status-warning"] |}]>
                    (document q)
             else document q
         | None => document q
         end;
       children := children q;
       console := console q ++ (retry_entry <$> calls) |}.
Proof.
  intros Hq. induction calls as [| call calls IH] using rev_ind.
  - destruct q. simpl. by rewrite app_nil_r.
  - rewrite foldl_snoc, IH, last_snoc, fmap_app. clear IH.
    unfold on_retry, showStatus, log, present.
    cbn [document children console fst].
    destruct (document q !! status_id) as [element |] eqn:Hstatus.
    + destruct Hq as (Hchildren & e0 & He0 & Hvalue);
        [by unfold present; rewrite Hstatus |].
      injection He0 as <-.
      assert (Hcurrent : exists current,
        match last calls with
        | Some c =>
            <[status_id :=
                {| Dom.textContent := formatRetryMessage c.1 c.2;
                   Dom.classList := ["value"; "status-warning"] |}]> (document q)
        | None => document q
        end !! status_id = Some current /\
        Dom.classList_remove Dom.status_classes (Dom.classList current)
        = ["value"]).
      { destruct (last calls) as [c |].
        - eexists. rewrite lookup_insert_eq. split; [done |]. by vm_compute.
        - by exists element. }
      destruct Hcurrent as (current & Hcurrent & Hcv).
      rewrite Hcurrent.
      rewrite (Dom_showStatus_value _ _ current _ "warning" Hcurrent Hcv).
      cbn [fst]. f_equal.
      * destruct (last calls) as [c |]; [by rewrite insert_insert_eq | done].
      * by apply delete_id.
      * by rewrite <- app_assoc.
    + assert (Hsame : match last calls with
                      | Some _ => document q
                      | None => document q
                      end = document q) by (by destruct (last calls)).
      rewrite Hsame, Hstatus. unfold Dom.showStatus. rewrite Hstatus.
      cbn [fst]. f_equal. by rewrite <- app_assoc.
Qed.

Lemma present_show_loading b1 b2 p elementId :
  present elementId (show_loading b1 b2 p) = present elementId p.
Proof.
  unfold present, show_loading, set_className, set_text.
  destruct b1, b2; cbn [document]; rewrite ?lookup_alter;
    repeat case_decide; subst; by destruct (document p !! _).
Qed.

(** After the loading indication the status element is ready for
    [page_after_retries]. *)
Lemma show_loading_ready p :
  let q := show_loading (present status_id p) (present version_id p) p in
  present status_id q = true ->
  children q !! status_id = None /\
  exists element,
    document q !! status_id = Some element /\
    Dom.classList_remove Dom.status_classes (Dom.classList element) = ["value"].
Proof.
  intros q Hq. subst q. rewrite present_show_loading in Hq. rewrite Hq.
  apply present_true in Hq as [element Helement].
  unfold show_loading, set_className, set_text.
  destruct (present version_id p); cbn [document children];
    rewrite ?lookup_alter_ne, ?lookup_delete_ne, !lookup_alter_eq,
      ?lookup_delete_eq, Helement by done; (split; [done |]);
    eexists; (split; [done |]); by vm_compute.
Qed.

(** [loadStatus] in terms of the retry sequence. *)
Lemma loadStatus_unfold fetch p :
  let b1 := present status_id p in
  let b2 := present version_id p in
  let fetched :=
    fetchWithRetry fetch "/api/status" [] (status_page_config (Some on_retry))
      (show_loading b1 b2 p) in
  let retried :=
    foldl (fun w call => on_retry call.1 call.2 w) (show_loading b1 b2 p)
      (retry_calls (events fetched)) in
  loadStatus fetch p
  = match outcome fetched with
    | Threw error => (events fetched, show_error b1 b2 error retried)
    | Returned response =>
        (events fetched ++ [EvJson response],
         match json response with
         | inr error => show_error b1 b2 error retried
         | inl data =>
             match (show_data b1 b2 data retried).2 with
             | Some error =>
                 show_error b1 b2 error (show_data b1 b2 data retried).1
             | None => (show_data b1 b2 data retried).1
             end
         end)
    end.
Proof.
  intros b1 b2 fetched retried. unfold loadStatus, fetchJsonWithRetry.
  fold b1 b2 fetched.
  assert (Hworld : world fetched = retried)
    by (subst fetched retried; by rewrite fetchWithRetry_world).
  destruct (outcome fetched) as [response | error]; cbn [outcome events world];
    rewrite Hworld; [| done].
  destruct (json response) as [data | error]; [| done].
  by destruct (show_data b1 b2 data retried) as [shown [error |]].
Qed.

(** The payload's status shown on a status element whose other classes are
    just [value]. *)
Lemma showStatus_value_text q element value text :
  document q !! status_id = Some element ->
  Dom.classList_remove Dom.status_classes (Dom.classList element) = ["value"] ->
  Js.to_string value = inl text ->
  showStatus_value q value
  = ({| document :=
          <[status_id :=
              {| Dom.textContent := text;
                 Dom.classList :=
                   "value" :: match Dom.own_property text Dom.classMap with
                              | Some cls => [cls]
                              | None => []
                              end |}]> (document q);
        children := delete status_id (children q);
        console := console q |},
     match Dom.get Dom.classMap text with
     | Dom.PropInherited =>
         Some (JsError "InvalidCharacterError" "token contains white space")
     | _ => None
     end).
Proof.
  intros Hq Hvalue Htext. unfold showStatus_value, showStatus, present.
  rewrite Hq, Htext.
  by rewrite (Dom_showStatus_value _ _ element _ text Hq Hvalue).
Qed.

(** A kind that is no inherited name raises nothing. *)
Lemma get_not_inherited text :
  text ∉ Dom.object_prototype_keys ->
  match Dom.get Dom.classMap text with
  | Dom.PropInherited =>
      Some (JsError "InvalidCharacterError" "token contains white space")
  | _ => None
  end = None.
Proof.
  intros Hnot. unfold Dom.get.
  destruct (Dom.own_property text Dom.classMap); [done |].
  by destruct (decide _).
Qed.

Lemma get_inherited text :
  text ∈ Dom.object_prototype_keys ->
  Dom.get Dom.classMap text = Dom.PropInherited /\
  Dom.own_property text Dom.classMap = None.
Proof.
  intros Hin. unfold Dom.get.
  destruct (Dom.own_property text Dom.classMap) as [cls |] eqn:Hown.
  - by apply classMap_key_not_inherited in Hown.
  - by destruct (decide _).
Qed.

Lemma Dom_showStatus_other (doc : Dom.Document) elementId message type other :
  other <> elementId ->
  (Dom.showStatus doc elementId message type).1 !! other = doc !! other.
Proof.
  intros Hother. unfold Dom.showStatus.
  destruct (doc !! elementId); [| done].
  destruct (Dom.get _ _); cbn [fst]; by rewrite lookup_insert_ne.
Qed.

Lemma status_classes_ok_value element :
  status_classes_ok element ->
  Dom.classList_remove Dom.status_classes (Dom.classList element) = ["value"].
Proof.
  intros [-> | (cls & Hcls & ->)]; [by vm_compute |].
  unfold Dom.classList_remove.
  rewrite filter_cons_True by (apply (bool_decide_unpack _); by vm_compute).
  by rewrite filter_cons_False, filter_nil by tauto.
Qed.

(** What holds of the page when [loadStatus] starts to wait for its request
    and is kept by each step of the script holds of the page it leaves,
    whatever the server does. *)
Lemma loadStatus_invariant (Q : State -> Prop) fetch p :
  Q (show_loading (present status_id p) (present version_id p) p) ->
  (forall attempt delay q, Q q -> Q (on_retry attempt delay q)) ->
  (forall data q,
     Q q -> Q (show_data (present status_id p) (present version_id p) data q).1) ->
  (forall error q,
     Q q -> Q (show_error (present status_id p) (present version_id p) error q)) ->
  Q (loadStatus fetch p).2.
Proof.
  intros Hloading Hretry Hdata Herror. rewrite loadStatus_unfold.
  set (b1 := present status_id p) in *. set (b2 := present version_id p) in *.
  set (calls := retry_calls _).
  assert (Hretried :
    Q (foldl (fun w call => on_retry call.1 call.2 w) (show_loading b1 b2 p) calls)).
  { clearbody calls. induction calls as [| call calls IH] using rev_ind;
      [done |]. rewrite foldl_snoc. by apply Hretry. }
  destruct (outcome _) as [response | error]; cbn [snd]; [| by apply Herror].
  destruct (json response) as [data | error]; [| by apply Herror].
  destruct (show_data b1 b2 data _).2 eqn:Hthrown;
    [apply Herror |]; by apply Hdata.
Qed.

(** The notifications of the status page, and the last of them. *)
Lemma status_page_calls (j : nat) attempt :
  retry_calls
    (rounds (onRetry (status_page_config (Some on_retry)))
       (backoffMultiplier_of (status_page_config (Some on_retry)))
       (maxDelay_of (status_page_config (Some on_retry))) j 0
       (initialDelay_of (status_page_config (Some on_retry)))
     ++ [EvFetch attempt])
  = zip (seqZ 1 (Z.of_nat j)) (delays 2 10000 j 1000).
Proof. by rewrite retry_calls_of_run. Qed.

Lemma last_status_page_call (j : nat) :
  (j <= 3)%nat ->
  last (zip (seqZ 1 (Z.of_nat j)) (delays 2 10000 j 1000))
  = match j with
    | O => None
    | S _ => Some (Z.of_nat j, 1000 * 2 ^ (Z.of_nat j - 1))
    end.
Proof.
  intros Hj. destruct j as [| [| [| [| j]]]]; [done | done | done | done | lia].
Qed.

(** What the status element shows while the request sequence is under way,
    after j failed attempts. *)
Lemma loadStatus_success_path fetch p status_element version_element (j : nat)
    response data :
  document p !! status_id = Some status_element ->
  document p !! version_id = Some version_element ->
  (j <= 3)%nat ->
  (forall i, (i < j)%nat -> failure (fetch "/api/status" [] i) <> None) ->
  fetch "/api/status" [] j = Resolved response ->
  ok response = true ->
  json response = inl data ->
  exists retried,
    document retried
    = <[status_id :=
          match j with
          | O => {| Dom.textContent := "Loading..."; Dom.classList := ["value"] |}
          | S _ =>
              {| Dom.textContent :=
                   formatRetryMessage (Z.of_nat j) (1000 * 2 ^ (Z.of_nat j - 1));
                 Dom.classList := ["value"; "status-warning"] |}
          end]>
        (<[version_id :=
             {| Dom.textContent := "Loading...";
                Dom.classList := Dom.classList version_element |}]>
           (document p)) /\
    children retried = delete version_id (delete status_id (children p)) /\
    fetch_attempts (loadStatus fetch p).1 = seqZ 0 (Z.of_nat j + 1) /\
    (loadStatus fetch p).2
    = match (show_data true true data retried).2 with
      | Some error => show_error true true error (show_data true true data retried).1
      | None => (show_data true true data retried).1
      end.
Proof.
  intros Hstatus Hversion Hj Hbefore Hfetch Hok Hjson.
  rewrite loadStatus_unfold.
  assert (Hb1 : present status_id p = true)
    by (unfold present; by rewrite Hstatus).
  assert (Hb2 : present version_id p = true)
    by (unfold present; by rewrite Hversion).
  pose proof (show_loading_ready p) as Hready. cbv zeta in Hready.
  rewrite Hb1, Hb2 in *.
  destruct (fetchWithRetry_first_success fetch "/api/status" []
              (status_page_config (Some on_retry)) (show_loading true true p)
              j response ltac:(unfold maxRetries_of; simpl; lia)
              Hbefore Hfetch Hok) as [Houtcome Hevents].
  rewrite Houtcome, Hevents, Hjson. cbn [fst snd].
  rewrite status_page_calls, page_after_retries by done.
  rewrite present_show_loading, Hb1, last_status_page_call by done.
  eexists. split; [| split; [| split; [| reflexivity]]].
  - cbn [document]. unfold show_loading, set_className, set_text.
    cbn [document].
    rewrite (alter_present _ _ _ _ Hstatus), alter_insert_eq.
    rewrite alter_insert_ne, (alter_present _ _ _ _ Hversion) by done.
    cbn [Dom.textContent Dom.classList].
    destruct j as [| j]; cbn [fst snd].
    + by rewrite insert_insert_ne.
    + by rewrite insert_insert_eq, insert_insert_ne.
  - done.
  - unfold fetch_attempts. rewrite <- app_assoc, omap_app.
    fold (fetch_attempts
            (rounds (onRetry (status_page_config (Some on_retry)))
               (backoffMultiplier_of (status_page_config (Some on_retry)))
               (maxDelay_of (status_page_config (Some on_retry))) j 0
               (initialDelay_of (status_page_config (Some on_retry))))).
    rewrite rounds_fetch_attempts, seqZ_app by lia. simpl.
    by rewrite Z.add_0_l.
Qed.

End PageFacts.

(** Look-ups through the assignments of the page script. *)
Ltac page_lookup :=
  unfold Page.show_error, Page.show_loading, Page.set_className, Page.set_text,
    Page.appendChild, Page.log;
  cbn [Page.document Page.children Page.console];
  repeat first
    [ rewrite lookup_insert_eq | rewrite lookup_alter_eq
    | rewrite lookup_delete_eq | rewrite lookup_insert_ne by done
    | rewrite lookup_alter_ne by done | rewrite lookup_delete_ne by done ].

(** X15: on a page that has both elements, when none of the four attempts
    yields an [ok] response, [loadStatus] makes the four attempts with waits
    of 1000, 2000 and 4000 ms and leaves the error display: the status
    element has no text of its own, the classes [value] and [status-error],
    and two children, the word Error and the Retry button; the version
    element reads N/A and keeps its classes. *)
Theorem loadStatus_failure_page fetch (p : Page.State) status_element
    version_element :
  Page.document p !! "server-status" = Some status_element ->
  Page.document p !! "server-version" = Some version_element ->
  (forall i, (i <= 3)%nat -> failure (fetch "/api/status" [] i) <> None) ->
  let result := Page.loadStatus fetch p in
  fetch_attempts result.1 = [0; 1; 2; 3] /\
  waits result.1 = [1000; 2000; 4000] /\
  Page.document result.2 !! "server-status"
  = Some {| Dom.textContent := EmptyString;
            Dom.classList := ["value"; "status-error"] |} /\
  Page.children result.2 !! "server-status"
  = Some [Page.Span "Error"; Page.Button "Retry" "retry-button" Page.Reload] /\
  Page.document result.2 !! "server-version"
  = Some {| Dom.textContent := "N/A";
            Dom.classList := Dom.classList version_element |}.
Proof.
  intros Hstatus Hversion Hfail result. subst result.
  rewrite loadStatus_unfold.
  assert (Hb1 : Page.present "server-status" p = true)
    by (unfold Page.present; by rewrite Hstatus).
  assert (Hb2 : Page.present "server-version" p = true)
    by (unfold Page.present; by rewrite Hversion).
  pose proof (show_loading_ready p) as Hready. cbv zeta in Hready.
  rewrite Hb1, Hb2 in *.
  destruct (fetchWithRetry_all_failures fetch "/api/status" []
              (status_page_config (Some Page.on_retry))
              (Page.show_loading true true p) 3 eq_refl Hfail)
    as (Hevents & error & _ & Houtcome).
  rewrite Houtcome, Hevents. cbn [fst snd].
  rewrite retry_calls_of_run, page_after_retries by done.
  rewrite present_show_loading, Hb1.
  split; [done |]. split; [done |].
  change (match onRetry (status_page_config (Some Page.on_retry)) with
          | Some _ => _
          | None => []
          end)
    with [(1, Number.of_Z 1000); (2, Number.of_Z 2000); (3, Number.of_Z 4000)].
  change (last [(1, Number.of_Z 1000); (2, Number.of_Z 2000);
                (3, Number.of_Z 4000)])
    with (Some (3, Number.of_Z 4000)).
  cbv beta iota. page_lookup. rewrite ?Hstatus, ?Hversion. done.
Qed.

Lemma loadStatus_failure_page_witness :
  let result := Page.loadStatus (answers [] 503) status_page in
  fetch_attempts result.1 = [0; 1; 2; 3] /\
  waits result.1 = [1000; 2000; 4000] /\
  Page.document result.2 !! "server-status"
  = Some {| Dom.textContent := EmptyString;
            Dom.classList := ["value"; "status-error"] |} /\
  Page.children result.2 !! "server-status"
  = Some [Page.Span "Error"; Page.Button "Retry" "retry-button" Page.Reload] /\
  Page.document result.2 !! "server-version"
  = Some {| Dom.textContent := "N/A"; Dom.classList := ["value"; "mono"] |}.
Proof.
  apply (loadStatus_failure_page (answers [] 503) status_page
           {| Dom.textContent := "Checking";
              Dom.classList := ["value"; "status-ok"] |}
           {| Dom.textContent := "-"; Dom.classList := ["value"; "mono"] |}).
  - reflexivity.
  - reflexivity.
  - intros i _. by destruct i.
Defined.

(** X16: on a page that has both elements, when attempt j (at most 3) is the
    first with an [ok] response and its payload is an object whose [status]
    and [version] are non-empty strings, the status being no inherited
    property name, [loadStatus] ends with the status as the text of the
    status element, whose classes are [value] and the class that [classMap]
    has for that status, if any; the element has no child, and the version
    element reads the version and keeps its classes. *)
Theorem loadStatus_success_page fetch (p : Page.State) status_element
    version_element (j : nat) response fields status_text version_text :
  Page.document p !! "server-status" = Some status_element ->
  Page.document p !! "server-version" = Some version_element ->
  (j <= 3)%nat ->
  (forall i, (i < j)%nat -> failure (fetch "/api/status" [] i) <> None) ->
  fetch "/api/status" [] j = Resolved response ->
  ok response = true ->
  json response = inl (JObject fields) ->
  Js.own "status" fields = Some (JString status_text) ->
  status_text <> EmptyString ->
  status_text ∉ Dom.object_prototype_keys ->
  Js.own "version" fields = Some (JString version_text) ->
  version_text <> EmptyString ->
  let result := Page.loadStatus fetch p in
  fetch_attempts result.1 = seqZ 0 (Z.of_nat j + 1) /\
  Page.document result.2 !! "server-status"
  = Some {| Dom.textContent := status_text;
            Dom.classList :=
              "value" :: match Dom.own_property status_text Dom.classMap with
                         | Some cls => [cls]
                         | None => []
                         end |} /\
  Page.children result.2 !! "server-status" = None /\
  Page.document result.2 !! "server-version"
  = Some {| Dom.textContent := version_text;
            Dom.classList := Dom.classList version_element |}.
Proof.
  intros Hstatus Hversion Hj Hbefore Hfetch Hok Hjson Hs Hs_text Hs_kind
    Hv Hv_text result. subst result.
  destruct (loadStatus_success_path fetch p status_element version_element j
              response (JObject fields) Hstatus Hversion Hj Hbefore Hfetch Hok
              Hjson) as (retried & Hdoc & Hchildren & Hattempts & ->).
  split; [done |].
  unfold Page.show_data. cbn [Js.get Js.field_name]. rewrite Hs, Hv.
  assert (Hs_true : Js.truthy (Some (JString status_text)) = true)
    by (by destruct status_text).
  assert (Hv_true : Js.truthy (Some (JString version_text)) = true)
    by (by destruct version_text).
  rewrite Hs_true, Hv_true.
  change (default JNull (Some (JString status_text)))
    with (JString status_text).
  change (default JNull (Some (JString version_text)))
    with (JString version_text).
  cbn [Js.to_string].
  assert (Hnow : exists now,
    Page.document retried !! "server-status" = Some now /\
    Dom.classList_remove Dom.status_classes (Dom.classList now) = ["value"]).
  { rewrite Hdoc, lookup_insert_eq. eexists. split; [done |].
    by destruct j. }
  destruct Hnow as (now & Hnow & Hvalue).
  rewrite (showStatus_value_text retried now (JString status_text) status_text
             Hnow Hvalue eq_refl).
  rewrite get_not_inherited by done. cbv beta iota zeta.
  cbn [fst snd]. page_lookup. rewrite ?Hdoc, ?Hchildren. page_lookup.
  by rewrite ?Hversion.
Qed.

Lemma loadStatus_success_page_witness :
  let data := JObject [("status", JString "running"); ("version", JString "1.4.2")] in
  let result := Page.loadStatus (status_server 2 data) status_page in
  fetch_attempts result.1 = [0; 1; 2] /\
  Page.document result.2 !! "server-status"
  = Some {| Dom.textContent := "running";
            Dom.classList := ["value"; "status-running"] |} /\
  Page.children result.2 !! "server-status" = None /\
  Page.document result.2 !! "server-version"
  = Some {| Dom.textContent := "1.4.2"; Dom.classList := ["value"; "mono"] |}.
Proof.
  cbv zeta.
  apply (loadStatus_success_page
           (status_server 2
              (JObject [("status", JString "running"); ("version", JString "1.4.2")]))
           status_page
           {| Dom.textContent := "Checking";
              Dom.classList := ["value"; "status-ok"] |}
           {| Dom.textContent := "-"; Dom.classList := ["value"; "mono"] |}
           2
           {| status := 200; statusText := "OK";
              json := inl (JObject [("status", JString "running");
                                    ("version", JString "1.4.2")]) |}
           [("status", JString "running"); ("version", JString "1.4.2")]
           "running" "1.4.2").
  - reflexivity.
  - reflexivity.
  - lia.
  - intros i Hi. destruct i as [| [| i]]; [done | done | lia].
  - reflexivity.
  - reflexivity.
  - reflexivity.
  - reflexivity.
  - discriminate.
  - apply (bool_decide_unpack _). by vm_compute.
  - reflexivity.
  - discriminate.
Defined.

(** X17: on a page that has both elements, when attempt j (at most 3) is the
    first with an [ok] response and its payload is an object with neither a
    truthy [status] nor a truthy [version] (each is missing, empty, zero,
    false or null), [loadStatus] ends normally and leaves the page as the
    request sequence left it: the status element still shows Loading..., or
    the message and warning class of the last retry, and the version element
    still reads Loading.... *)
Theorem loadStatus_stale_page fetch (p : Page.State) status_element
    version_element (j : nat) response fields :
  Page.document p !! "server-status" = Some status_element ->
  Page.document p !! "server-version" = Some version_element ->
  (j <= 3)%nat ->
  (forall i, (i < j)%nat -> failure (fetch "/api/status" [] i) <> None) ->
  fetch "/api/status" [] j = Resolved response ->
  ok response = true ->
  json response = inl (JObject fields) ->
  Js.truthy (Js.own "status" fields) = false ->
  Js.truthy (Js.own "version" fields) = false ->
  let result := Page.loadStatus fetch p in
  Page.document result.2 !! "server-status"
  = Some match j with
         | O => {| Dom.textContent := "Loading..."; Dom.classList := ["value"] |}
         | S _ =>
             {| Dom.textContent :=
                  formatRetryMessage (Z.of_nat j) (1000 * 2 ^ (Z.of_nat j - 1));
                Dom.classList := ["value"; "status-warning"] |}
         end /\
  Page.children result.2 !! "server-status" = None /\
  Page.document result.2 !! "server-version"
  = Some {| Dom.textContent := "Loading...";
            Dom.classList := Dom.classList version_element |}.
Proof.
  intros Hstatus Hversion Hj Hbefore Hfetch Hok Hjson Hs Hv result.
  subst result.
  destruct (loadStatus_success_path fetch p status_element version_element j
              response (JObject fields) Hstatus Hversion Hj Hbefore Hfetch Hok
              Hjson) as (retried & Hdoc & Hchildren & _ & ->).
  unfold Page.show_data. cbn [Js.get Js.field_name]. rewrite Hs, Hv.
  cbv beta iota zeta. cbn [fst snd]. page_lookup.
  rewrite ?Hdoc, ?Hchildren. page_lookup. done.
Qed.

Lemma loadStatus_stale_page_witness :
  let data := JObject [("status", JString EmptyString); ("uptime", JNumber 12)] in
  let result := Page.loadStatus (status_server 1 data) status_page in
  Page.document result.2 !! "server-status"
  = Some {| Dom.textContent := formatRetryMessage 1 (1000 * 2 ^ (1 - 1));
            Dom.classList := ["value"; "status-warning"] |} /\
  Page.children result.2 !! "server-status" = None /\
  Page.document result.2 !! "server-version"
  = Some {| Dom.textContent := "Loading...";
            Dom.classList := ["value"; "mono"] |}.
Proof.
  cbv zeta.
  apply (loadStatus_stale_page
           (status_server 1
              (JObject [("status", JString EmptyString); ("uptime", JNumber 12)]))
           status_page
           {| Dom.textContent := "Checking";
              Dom.classList := ["value"; "status-ok"] |}
           {| Dom.textContent := "-"; Dom.classList := ["value"; "mono"] |}
           1
           {| status := 200; statusText := "OK";
              json := inl (JObject [("status", JString EmptyString);
                                    ("uptime", JNumber 12)]) |}
           [("status", JString EmptyString); ("uptime", JNumber 12)]).
  - reflexivity.
  - reflexivity.
  - lia.
  - intros i Hi. destruct i as [| i]; [done | lia].
  - reflexivity.
  - reflexivity.
  - reflexivity.
  - reflexivity.
  - reflexivity.
Defined.

(** X18: on a page that has both elements, when attempt j (at most 3) is the
    first with an [ok] response and the [status] of its payload is a string
    that names an inherited property ([constructor], [toString], ...), the
    exception of [showStatus] reaches the [catch] clause: although the
    request succeeded, [loadStatus] leaves the error display, with the Retry
    button, and the version element reads N/A. *)
Theorem loadStatus_inherited_status fetch (p : Page.State) status_element
    version_element (j : nat) response fields status_text :
  Page.document p !! "server-status" = Some status_element ->
  Page.document p !! "server-version" = Some version_element ->
  (j <= 3)%nat ->
  (forall i, (i < j)%nat -> failure (fetch "/api/status" [] i) <> None) ->
  fetch "/api/status" [] j = Resolved response ->
  ok response = true ->
  json response = inl (JObject fields) ->
  Js.own "status" fields = Some (JString status_text) ->
  status_text ∈ Dom.object_prototype_keys ->
  let result := Page.loadStatus fetch p in
  Page.document result.2 !! "server-status"
  = Some {| Dom.textContent := EmptyString;
            Dom.classList := ["value"; "status-error"] |} /\
  Page.children result.2 !! "server-status"
  = Some [Page.Span "Error"; Page.Button "Retry" "retry-button" Page.Reload] /\
  Page.document result.2 !! "server-version"
  = Some {| Dom.textContent := "N/A";
            Dom.classList := Dom.classList version_element |}.
Proof.
  intros Hstatus Hversion Hj Hbefore Hfetch Hok Hjson Hs Hkind result.
  subst result.
  destruct (loadStatus_success_path fetch p status_element version_element j
              response (JObject fields) Hstatus Hversion Hj Hbefore Hfetch Hok
              Hjson) as (retried & Hdoc & Hchildren & _ & ->).
  unfold Page.show_data. cbn [Js.get Js.field_name]. rewrite Hs.
  assert (Hs_true : Js.truthy (Some (JString status_text)) = true).
  { destruct status_text; [| done]. exfalso. revert Hkind.
    apply (bool_decide_unpack _). by vm_compute. }
  rewrite Hs_true.
  change (default JNull (Some (JString status_text)))
    with (JString status_text).
  assert (Hnow : exists now,
    Page.document retried !! "server-status" = Some now /\
    Dom.classList_remove Dom.status_classes (Dom.classList now) = ["value"]).
  { rewrite Hdoc, lookup_insert_eq. eexists. split; [done |].
    by destruct j. }
  destruct Hnow as (now & Hnow & Hvalue).
  rewrite (showStatus_value_text retried now (JString status_text) status_text
             Hnow Hvalue eq_refl).
  destruct (get_inherited status_text Hkind) as [-> ->].
  cbv beta iota zeta. cbn [fst snd]. page_lookup.
  rewrite ?Hdoc, ?Hchildren. page_lookup. by rewrite ?Hversion.
Qed.

Lemma loadStatus_inherited_status_witness :
  let data :=
    JObject [("status", JString "constructor"); ("version", JString "1.4.2")] in
  let result := Page.loadStatus (status_server 0 data) status_page in
  Page.document result.2 !! "server-status"
  = Some {| Dom.textContent := EmptyString;
            Dom.classList := ["value"; "status-error"] |} /\
  Page.children result.2 !! "server-status"
  = Some [Page.Span "Error"; Page.Button "Retry" "retry-button" Page.Reload] /\
  Page.document result.2 !! "server-version"
  = Some {| Dom.textContent := "N/A"; Dom.classList := ["value"; "mono"] |}.
Proof.
  cbv zeta.
  apply (loadStatus_inherited_status
           (status_server 0
              (JObject [("status", JString "constructor");
                        ("version", JString "1.4.2")]))
           status_page
           {| Dom.textContent := "Checking";
              Dom.classList := ["value"; "status-ok"] |}
           {| Dom.textContent := "-"; Dom.classList := ["value"; "mono"] |}
           0
           {| status := 200; statusText := "OK";
              json := inl (JObject [("status", JString "constructor");
                                    ("version", JString "1.4.2")]) |}
           [("status", JString "constructor"); ("version", JString "1.4.2")]
           "constructor").
  - reflexivity.
  - reflexivity.
  - lia.
  - intros i Hi. lia.
  - reflexivity.
  - reflexivity.
  - reflexivity.
  - reflexivity.
  - apply (bool_decide_unpack _). by vm_compute.
Defined.

Section PageInvariants.

Import Page.

(** Each step of the script keeps the classes of the status element in
    order. *)
Lemma on_retry_status_classes attempt delay q :
  (exists element,
     document q !! "server-status" = Some element /\ status_classes_ok element) ->
  exists element,
    document (on_retry attempt delay q) !! "server-status" = Some element /\
    status_classes_ok element.
Proof.
  intros (element & Hq & Hok). unfold on_retry, showStatus, log.
  cbn [document fst].
  rewrite (Dom_showStatus_value _ _ element _ "warning" Hq
             (status_classes_ok_value _ Hok)).
  cbn [fst]. rewrite lookup_insert_eq. eexists. split; [done |].
  right. exists "status-warning". split; [| done].
  apply (bool_decide_unpack _). by vm_compute.
Qed.

Lemma show_data_status_classes b2 data q :
  (exists element,
     document q !! "server-status" = Some element /\ status_classes_ok element) ->
  exists element,
    document (show_data true b2 data q).1 !! "server-status" = Some element /\
    status_classes_ok element.
Proof.
  intros (element & Hq & Hok). unfold show_data.
  assert (Hshown : forall value,
    exists shown,
      document (showStatus_value q value).1 !! "server-status" = Some shown /\
      status_classes_ok shown).
  { intros value. destruct (Js.to_string value) as [text | error] eqn:Htext.
    - rewrite (showStatus_value_text q element value text Hq
                 (status_classes_ok_value _ Hok) Htext).
      cbn [fst document]. rewrite lookup_insert_eq. eexists. split; [done |].
      cbn [Dom.classList].
      destruct (Dom.own_property text Dom.classMap) as [cls |] eqn:Hown;
        [right | by left].
      exists cls. split; [by apply classMap_status_class in Hown | done].
    - unfold showStatus_value, present. rewrite Hq, Htext. by exists element. }
  destruct (Js.get data Js.Status) as [status | error]; [| by exists element].
  destruct (Js.truthy status).
  - destruct (Hshown (default JNull status)) as (shown & Hs & Hs_ok).
    destruct (showStatus_value q (default JNull status)) as [q1 [error |]];
      cbn [fst] in Hs; [by exists shown |].
    destruct b2; [| by exists shown].
    destruct (Js.get data Js.Version) as [version | error]; [| by exists shown].
    destruct (Js.truthy version); [| by exists shown].
    destruct (Js.to_string (default JNull version)); cbn [fst]; page_lookup;
      by exists shown.
  - destruct b2; [| by exists element].
    destruct (Js.get data Js.Version) as [version | error]; [| by exists element].
    destruct (Js.truthy version); [| by exists element].
    destruct (Js.to_string (default JNull version)); cbn [fst]; page_lookup;
      by exists element.
Qed.

Lemma show_error_status_classes b2 error q :
  (exists element, document q !! "server-status" = Some element) ->
  exists element,
    document (show_error true b2 error q) !! "server-status" = Some element /\
    status_classes_ok element.
Proof.
  intros (element & Hq). destruct b2; page_lookup; rewrite Hq;
    (eexists; split; [done |]); right; exists "status-error";
    (split; [apply (bool_decide_unpack _); by vm_compute | done]).
Qed.

End PageInvariants.

(** X19: whatever the server answers and whatever classes the status element
    had, after [loadStatus] the status element of the page has the class
    [value] and at most one more class, which is a status class. *)
Theorem loadStatus_status_classes fetch (p : Page.State) status_element :
  Page.document p !! "server-status" = Some status_element ->
  exists shown,
    Page.document (Page.loadStatus fetch p).2 !! "server-status" = Some shown /\
    (Dom.classList shown = ["value"] \/
     exists cls,
       cls ∈ Dom.status_classes /\ Dom.classList shown = ["value"; cls]).
Proof.
  intros Hstatus.
  assert (Hb1 : Page.present "server-status" p = true)
    by (unfold Page.present; by rewrite Hstatus).
  apply (loadStatus_invariant
           (fun q => exists element,
              Page.document q !! "server-status" = Some element /\
              Page.status_classes_ok element)); rewrite ?Hb1.
  - destruct (Page.present "server-version" p); page_lookup; rewrite Hstatus;
      (eexists; split; [done |]); by left.
  - apply on_retry_status_classes.
  - intros data q. apply show_data_status_classes.
  - intros error q (element & Hq & _). apply show_error_status_classes.
    by exists element.
Qed.

Lemma loadStatus_status_classes_witness :
  exists shown,
    Page.document (Page.loadStatus (answers [500; 404] 200) status_page).2
      !! "server-status" = Some shown /\
    (Dom.classList shown = ["value"] \/
     exists cls,
       cls ∈ Dom.status_classes /\ Dom.classList shown = ["value"; cls]).
Proof.
  apply (loadStatus_status_classes (answers [500; 404] 200) status_page
           {| Dom.textContent := "Checking";
              Dom.classList := ["value"; "status-ok"] |}).
  reflexivity.
Defined.

Section PageFrame.

Import Page.

Variable other : string.
Hypothesis not_status : other <> "server-status".
Hypothesis not_version : other <> "server-version".

Lemma showStatus_frame q message type :
  document (showStatus q "server-status" message type).1 !! other
  = document q !! other /\
  children (showStatus q "server-status" message type).1 !! other
  = children q !! other.
Proof.
  unfold showStatus. cbn [fst document children].
  rewrite Dom_showStatus_other by done. split; [done |].
  destruct (present _ _); [by rewrite lookup_delete_ne | done].
Qed.

Lemma on_retry_frame attempt delay q :
  document (on_retry attempt delay q) !! other = document q !! other /\
  children (on_retry attempt delay q) !! other = children q !! other.
Proof.
  unfold on_retry.
  destruct (showStatus_frame
              (log (Logged ("Status load failed, "
                            +:+ formatRetryMessage attempt delay) None) q)
              (formatRetryMessage attempt delay) (Some "warning")) as [-> ->].
  done.
Qed.

Lemma show_data_frame b1 b2 data q :
  document (show_data b1 b2 data q).1 !! other = document q !! other /\
  children (show_data b1 b2 data q).1 !! other = children q !! other.
Proof.
  unfold show_data.
  assert (Hvalue : forall value,
    document (showStatus_value q value).1 !! other = document q !! other /\
    children (showStatus_value q value).1 !! other = children q !! other).
  { intros value. unfold showStatus_value.
    destruct (present _ _); [| done].
    destruct (Js.to_string value); [apply showStatus_frame | done]. }
  assert (Hversion : forall q1,
    document q1 !! other = document q !! other /\
    children q1 !! other = children q !! other ->
    document
      (let '(p2, thrown) :=
         if b2 then
           match Js.get data Js.Version with
           | inl version =>
               if Js.truthy version then
                 match Js.to_string (default JNull version) with
                 | inl text => (set_text "server-version" text q1, None)
                 | inr error => (q1, Some error)
                 end
               else (q1, None)
           | inr error => (q1, Some error)
           end
         else (q1, None) in
       match thrown with
       | Some error => (p2, Some error)
       | None =>
           (log (Logged "Status loaded successfully:" (Some data)) p2, None)
       end).1 !! other = document q !! other /\
    children
      (let '(p2, thrown) :=
         if b2 then
           match Js.get data Js.Version with
           | inl version =>
               if Js.truthy version then
                 match Js.to_string (default JNull version) with
                 | inl text => (set_text "server-version" text q1, None)
                 | inr error => (q1, Some error)
                 end
               else (q1, None)
           | inr error => (q1, Some error)
           end
         else (q1, None) in
       match thrown with
       | Some error => (p2, Some error)
       | None =>
           (log (Logged "Status loaded successfully:" (Some data)) p2, None)
       end).1 !! other = children q !! other).
  { intros q1 [Hd Hc]. destruct b2; [| by page_lookup].
    destruct (Js.get data Js.Version) as [version | error]; [| done].
    destruct (Js.truthy version); [| by page_lookup].
    destruct (Js.to_string (default JNull version)); [| done].
    cbn [fst]. by page_lookup. }
  destruct b1; [| by apply Hversion].
  destruct (Js.get data Js.Status) as [status | error]; [| done].
  destruct (Js.truthy status); [| by apply Hversion].
  specialize (Hvalue (default JNull status)).
  destruct (showStatus_value q (default JNull status)) as [q1 [error |]];
    [done | by apply Hversion].
Qed.

Lemma show_error_frame b1 b2 error q :
  document (show_error b1 b2 error q) !! other = document q !! other /\
  children (show_error b1 b2 error q) !! other = children q !! other.
Proof. by destruct b1, b2; page_lookup. Qed.

Lemma show_loading_frame b1 b2 q :
  document (show_loading b1 b2 q) !! other = document q !! other /\
  children (show_loading b1 b2 q) !! other = children q !! other.
Proof. by destruct b1, b2; page_lookup. Qed.

Lemma loadStatus_frame fetch p :
  document (loadStatus fetch p).2 !! other = document p !! other /\
  children (loadStatus fetch p).2 !! other = children p !! other.
Proof.
  apply (loadStatus_invariant
           (fun q => document q !! other = document p !! other /\
                     children q !! other = children p !! other)).
  - apply show_loading_frame.
  - intros attempt delay q [Hd Hc].
    destruct (on_retry_frame attempt delay q) as [-> ->]. done.
  - intros data q [Hd Hc].
    destruct (show_data_frame (present "server-status" p)
                (present "server-version" p) data q) as [-> ->]. done.
  - intros error q [Hd Hc].
    destruct (show_error_frame (present "server-status" p)
                (present "server-version" p) error q) as [-> ->]. done.
Qed.

End PageFrame.

(** X20: [loadStatus] touches the two elements it looks up and nothing else:
    every other element of the page, and the children of every other
    element, are after the call what they were before it, whatever the
    server answers. *)
Theorem loadStatus_touches_two_elements fetch (p : Page.State) other :
  other <> "server-status" ->
  other <> "server-version" ->
  Page.document (Page.loadStatus fetch p).2 !! other = Page.document p !! other /\
  Page.children (Page.loadStatus fetch p).2 !! other = Page.children p !! other.
Proof. intros Hstatus Hversion. by apply loadStatus_frame. Qed.

Lemma loadStatus_touches_two_elements_witness :
  Page.document (Page.loadStatus (answers [500] 200) status_page).2 !! "page-title"
  = Page.document status_page !! "page-title" /\
  Page.children (Page.loadStatus (answers [500] 200) status_page).2 !! "page-title"
  = Page.children status_page !! "page-title".
Proof.
  apply (loadStatus_touches_two_elements (answers [500] 200) status_page
           "page-title").
  - discriminate.
  - discriminate.
Defined.

(** ** A reload starts afresh *)

Section WorldIndependence.

Context {W : Type}.
Variable (maxRetries' : Z).
Variables (maxDelay' backoffMultiplier' : Number.t).
Variable (onRetry' : option (@Hook W)).
Variable (fetch : string -> RequestInit -> nat -> FetchOutcome).
Variables (url : string) (options : RequestInit).

Local Abbreviation loop' :=
  (loop maxRetries' maxDelay' backoffMultiplier' onRetry' fetch url options).

(** The caller's state has no part in what the loop does. *)
Lemma loop_ignores_world attempt : forall delay lastError calls (w w' : W),
  events (loop' attempt delay lastError calls w)
  = events (loop' attempt delay lastError calls w') /\
  outcome (loop' attempt delay lastError calls w)
  = outcome (loop' attempt delay lastError calls w').
Proof.
  pattern attempt. apply (attempt_ind maxRetries'). clear attempt.
  intros attempt IH delay lastError calls w w'.
  rewrite !loop_step. destruct (attempt <=? maxRetries') eqn:Hle; [| done].
  apply Z.leb_le in Hle.
  destruct (try_catch _ _ _) as [response | error | error]; [done | done |].
  unfold backoff. destruct (attempt <? maxRetries').
  - destruct onRetry' as [hook |]; unfold after; cbn [events outcome].
    + destruct (IH Hle (nextDelay maxDelay' backoffMultiplier' delay) error
                  (S calls) (hook (attempt + 1) delay w)
                  (hook (attempt + 1) delay w')) as [-> ->]. done.
    + destruct (IH Hle (nextDelay maxDelay' backoffMultiplier' delay) error
                  (S calls) w w') as [-> ->]. done.
  - unfold after. cbn [events outcome].
    destruct (IH Hle delay error (S calls) w w') as [-> ->]. done.
Qed.

End WorldIndependence.

Lemma fetchWithRetry_ignores_world {W} fetch url options
    (retryConfig : RetryConfig W) (w w' : W) :
  events (fetchWithRetry fetch url options retryConfig w)
  = events (fetchWithRetry fetch url options retryConfig w') /\
  outcome (fetchWithRetry fetch url options retryConfig w)
  = outcome (fetchWithRetry fetch url options retryConfig w').
Proof. unfold fetchWithRetry. apply loop_ignores_world. Qed.

Section ReloadFacts.

Import Page.

(** The steps of the script read the elements and the children, never the
    console. *)
Lemma on_retry_same attempt delay q q' :
  same_page q q' -> same_page (on_retry attempt delay q) (on_retry attempt delay q').
Proof.
  destruct q, q'. unfold same_page. cbn [document children].
  intros [-> ->]. by unfold on_retry, showStatus, log, present.
Qed.

Lemma retries_same calls : forall q q',
  same_page q q' ->
  same_page (foldl (fun w call => on_retry call.1 call.2 w) q calls)
            (foldl (fun w call => on_retry call.1 call.2 w) q' calls).
Proof.
  induction calls as [| call calls IH]; intros q q' Hsame; [done |].
  cbn [foldl]. apply IH. by apply on_retry_same.
Qed.

Lemma show_error_same b1 b2 error q q' :
  same_page q q' ->
  same_page (show_error b1 b2 error q) (show_error b1 b2 error q').
Proof.
  destruct q, q'. unfold same_page. cbn [document children].
  intros [-> ->]. by destruct b1, b2.
Qed.

Lemma show_data_same b1 b2 data q q' :
  same_page q q' ->
  same_page (show_data b1 b2 data q).1 (show_data b1 b2 data q').1 /\
  (show_data b1 b2 data q).2 = (show_data b1 b2 data q').2.
Proof.
  destruct q as [doc kids lines], q' as [doc' kids' lines'].
  unfold same_page. cbn [document children]. intros [<- <-].
  unfold show_data, showStatus_value, showStatus, present, set_text, log.
  cbn [document children console].
  destruct b1, b2; repeat case_match; simplify_eq; done.
Qed.

(** The version element keeps its classes through every step. *)
Lemma on_retry_version attempt delay q :
  document (on_retry attempt delay q) !! "server-version"
  = document q !! "server-version".
Proof.
  unfold on_retry, showStatus, log. cbn [fst document].
  by rewrite Dom_showStatus_other.
Qed.

Lemma show_data_version b1 b2 data q classes :
  (exists element,
     document q !! "server-version" = Some element /\
     Dom.classList element = classes) ->
  exists element,
    document (show_data b1 b2 data q).1 !! "server-version" = Some element /\
    Dom.classList element = classes.
Proof.
  intros (element & Hq & Hclasses).
  unfold show_data, showStatus_value, showStatus.
  destruct b1, b2; repeat case_match; simplify_eq; cbn [fst document];
    page_lookup; rewrite ?Dom_showStatus_other by done; rewrite Hq;
    by eexists.
Qed.

Lemma show_error_version b1 error q classes :
  (exists element,
     document q !! "server-version" = Some element /\
     Dom.classList element = classes) ->
  exists element,
    document (show_error b1 true error q) !! "server-version" = Some element /\
    Dom.classList element = classes.
Proof.
  intros (element & Hq & Hclasses).
  destruct b1; page_lookup; rewrite Hq; by eexists.
Qed.

(** The page that a call leaves still has both elements, the version
    element with the classes it had. *)
Lemma loadStatus_keeps_elements fetch p status_element version_element :
  document p !! "server-status" = Some status_element ->
  document p !! "server-version" = Some version_element ->
  (exists element, document (loadStatus fetch p).2 !! "server-status" = Some element) /\
  exists element,
    document (loadStatus fetch p).2 !! "server-version" = Some element /\
    Dom.classList element = Dom.classList version_element.
Proof.
  intros Hstatus Hversion.
  assert (Hb1 : present "server-status" p = true)
    by (unfold present; by rewrite Hstatus).
  assert (Hb2 : present "server-version" p = true)
    by (unfold present; by rewrite Hversion).
  split.
  - assert (Hok : exists element,
      document (loadStatus fetch p).2 !! "server-status" = Some element /\
      status_classes_ok element); [| destruct Hok as (e & He & _); by exists e].
    apply (loadStatus_invariant
             (fun q => exists element,
                document q !! "server-status" = Some element /\
                status_classes_ok element)); rewrite ?Hb1, ?Hb2.
    + page_lookup. rewrite Hstatus. eexists. split; [done |]. by left.
    + apply on_retry_status_classes.
    + intros data q. apply show_data_status_classes.
    + intros error q (element & Hq & _). apply show_error_status_classes.
      by exists element.
  - apply (loadStatus_invariant
             (fun q => exists element,
                document q !! "server-version" = Some element /\
                Dom.classList element = Dom.classList version_element));
      rewrite ?Hb1, ?Hb2.
    + page_lookup. rewrite Hversion. by eexists.
    + intros attempt delay q. by rewrite on_retry_version.
    + intros data q. apply show_data_version.
    + intros error q. apply show_error_version.
Qed.

(** Whatever an earlier call left, the loading indication is the same. *)
Lemma reload_same_start fetch p status_element version_element :
  document p !! "server-status" = Some status_element ->
  document p !! "server-version" = Some version_element ->
  same_page (show_loading true true (loadStatus fetch p).2)
            (show_loading true true p).
Proof.
  intros Hstatus Hversion.
  destruct (loadStatus_keeps_elements fetch p status_element version_element
              Hstatus Hversion) as ((e1 & He1) & (e2 & He2 & Hclasses)).
  split; apply map_eq; intros elementId.
  - destruct (decide (elementId = "server-status")) as [-> | Hs];
      [page_lookup; by rewrite He1, Hstatus |].
    destruct (decide (elementId = "server-version")) as [-> | Hv];
      [page_lookup; rewrite He2, Hversion; cbn; by rewrite Hclasses |].
    page_lookup. by apply loadStatus_frame.
  - destruct (decide (elementId = "server-status")) as [-> | Hs];
      [by page_lookup |].
    destruct (decide (elementId = "server-version")) as [-> | Hv];
      [by page_lookup |].
    page_lookup. by apply loadStatus_frame.
Qed.

End ReloadFacts.

(** X21: a reload starts afresh.  On a page that has both elements, a click
    on the Retry button after any earlier [loadStatus] causes the same
    events, and leaves the same elements and children, as [loadStatus] on
    the page before that earlier call: nothing that the earlier call showed
    carries over, whatever the servers answer. *)
Theorem reload_starts_afresh earlier fetch (p : Page.State) status_element
    version_element :
  Page.document p !! "server-status" = Some status_element ->
  Page.document p !! "server-version" = Some version_element ->
  let left := (Page.loadStatus earlier p).2 in
  (Page.click fetch Page.Reload left).1 = (Page.loadStatus fetch p).1 /\
  Page.document (Page.click fetch Page.Reload left).2
  = Page.document (Page.loadStatus fetch p).2 /\
  Page.children (Page.click fetch Page.Reload left).2
  = Page.children (Page.loadStatus fetch p).2.
Proof.
  intros Hstatus Hversion left. subst left. unfold Page.click.
  destruct (loadStatus_keeps_elements earlier p status_element version_element
              Hstatus Hversion) as ((e1 & He1) & (e2 & He2 & _)).
  pose proof (reload_same_start earlier p status_element version_element
                Hstatus Hversion) as Hstart.
  remember (Page.loadStatus earlier p).2 as left eqn:Hleft. clear Hleft.
  rewrite !loadStatus_unfold.
  assert (Hb1 : Page.present "server-status" p = true)
    by (unfold Page.present; by rewrite Hstatus).
  assert (Hb2 : Page.present "server-version" p = true)
    by (unfold Page.present; by rewrite Hversion).
  assert (Hb3 : Page.present "server-status" left = true)
    by (unfold Page.present; by rewrite He1).
  assert (Hb4 : Page.present "server-version" left = true)
    by (unfold Page.present; by rewrite He2).
  rewrite Hb1, Hb2, Hb3, Hb4.
  destruct (fetchWithRetry_ignores_world fetch "/api/status" []
              (status_page_config (Some Page.on_retry))
              (Page.show_loading true true left)
              (Page.show_loading true true p)) as [-> ->].
  set (calls := retry_calls _).
  pose proof (retries_same calls _ _ Hstart) as Hretried.
  destruct (outcome _) as [response | error]; cbn [fst snd].
  - split; [done |]. destruct (json response) as [data | error].
    + destruct (show_data_same true true data _ _ Hretried) as [Hshown ->].
      destruct (Page.show_data true true data _).2 as [error |].
      * by apply show_error_same.
      * done.
    + by apply show_error_same.
  - split; [done |]. by apply show_error_same.
Qed.

Lemma reload_starts_afresh_witness :
  let data := JObject [("status", JString "running"); ("version", JString "1.4.2")] in
  let left := (Page.loadStatus (answers [] 503) status_page).2 in
  (Page.click (status_server 1 data) Page.Reload left).1
  = (Page.loadStatus (status_server 1 data) status_page).1 /\
  Page.document (Page.click (status_server 1 data) Page.Reload left).2
  = Page.document (Page.loadStatus (status_server 1 data) status_page).2 /\
  Page.children (Page.click (status_server 1 data) Page.Reload left).2
  = Page.children (Page.loadStatus (status_server 1 data) status_page).2.
Proof.
  cbv zeta.
  apply (reload_starts_afresh (answers [] 503)
           (status_server 1
              (JObject [("status", JString "running"); ("version", JString "1.4.2")]))
           status_page
           {| Dom.textContent := "Checking";
              Dom.classList := ["value"; "status-ok"] |}
           {| Dom.textContent := "-"; Dom.classList := ["value"; "mono"] |}).
  - reflexivity.
  - reflexivity.
Defined.

(** ** Elements that the page does not have *)

Section MissingElements.

Import Page.

Lemma missing_status_kept fetch p :
  document p !! "server-status" = None ->
  document (loadStatus fetch p).2 !! "server-status" = None /\
  children (loadStatus fetch p).2 !! "server-status"
  = children p !! "server-status".
Proof.
  intros Hstatus.
  assert (Hb1 : present "server-status" p = false)
    by (unfold present; by rewrite Hstatus).
  apply (loadStatus_invariant
           (fun q => document q !! "server-status" = None /\
                     children q !! "server-status"
                     = children p !! "server-status")); rewrite ?Hb1.
  - by destruct (present "server-version" p); page_lookup.
  - intros attempt delay q [Hd Hc].
    unfold on_retry, showStatus, Dom.showStatus, present, log.
    cbn [document children console]. by rewrite Hd.
  - intros data q [Hd Hc]. unfold show_data.
    destruct (present "server-version" p); repeat case_match; simplify_eq;
      cbn [fst]; by page_lookup.
  - intros error q [Hd Hc].
    by destruct (present "server-version" p); page_lookup.
Qed.

Lemma missing_version_kept fetch p :
  document p !! "server-version" = None ->
  document (loadStatus fetch p).2 !! "server-version" = None /\
  children (loadStatus fetch p).2 !! "server-version"
  = children p !! "server-version".
Proof.
  intros Hversion.
  assert (Hb2 : present "server-version" p = false)
    by (unfold present; by rewrite Hversion).
  apply (loadStatus_invariant
           (fun q => document q !! "server-version" = None /\
                     children q !! "server-version"
                     = children p !! "server-version")); rewrite ?Hb2.
  - by destruct (present "server-status" p); page_lookup.
  - intros attempt delay q [Hd Hc]. rewrite on_retry_version.
    split; [done |]. unfold on_retry, showStatus, log.
    cbn [fst document children].
    case_match; [by rewrite lookup_delete_ne | done].
  - intros data q [Hd Hc]. unfold show_data, showStatus_value, showStatus.
    destruct (present "server-status" p); repeat case_match; simplify_eq;
      cbn [fst document children]; page_lookup;
      rewrite ?Dom_showStatus_other by done; done.
  - intros error q [Hd Hc].
    by destruct (present "server-status" p); page_lookup.
Qed.

End MissingElements.

(** X22: [loadStatus] creates no element.  An element that the page does not
    have, one of the two that the script looks up included, is still missing
    after the call, and what is recorded as its children is unchanged,
    whatever the server answers. *)
Theorem loadStatus_creates_no_element fetch (p : Page.State) elementId :
  Page.document p !! elementId = None ->
  Page.document (Page.loadStatus fetch p).2 !! elementId = None /\
  Page.children (Page.loadStatus fetch p).2 !! elementId
  = Page.children p !! elementId.
Proof.
  intros Hmissing.
  destruct (decide (elementId = "server-status")) as [-> | Hstatus];
    [by apply missing_status_kept |].
  destruct (decide (elementId = "server-version")) as [-> | Hversion];
    [by apply missing_version_kept |].
  destruct (loadStatus_frame elementId Hstatus Hversion fetch p) as [-> ->].
  done.
Qed.

Lemma loadStatus_creates_no_element_witness :
  Page.document (Page.loadStatus (answers [500] 200) version_only_page).2
    !! "server-status" = None /\
  Page.children (Page.loadStatus (answers [500] 200) version_only_page).2
    !! "server-status"
  = Page.children version_only_page !! "server-status".
Proof.
  apply (loadStatus_creates_no_element (answers [500] 200) version_only_page
           "server-status").
  reflexivity.
Defined.

(** ** The console *)

Section ConsoleFacts.

Import Page.

Lemma retries_console calls : forall q,
  console (foldl (fun w call => on_retry call.1 call.2 w) q calls)
  = console q ++ (retry_entry <$> calls).
Proof.
  induction calls as [| call calls IH]; intros q; cbn [foldl fmap list_fmap];
    [by rewrite app_nil_r |].
  rewrite IH. unfold on_retry, showStatus, log. cbn [fst console].
  by rewrite <- app_assoc.
Qed.

Lemma retries_no_child calls : forall q,
  children q !! "server-status" = None ->
  children (foldl (fun w call => on_retry call.1 call.2 w) q calls)
    !! "server-status" = None.
Proof.
  induction calls as [| call calls IH]; intros q Hq; cbn [foldl]; [done |].
  apply IH. unfold on_retry, showStatus, log. cbn [fst children].
  case_match; [by rewrite lookup_delete_eq | done].
Qed.

Lemma show_data_closing b1 b2 data q :
  children q !! "server-status" = None ->
  children (show_data b1 b2 data q).1 !! "server-status" = None /\
  console (show_data b1 b2 data q).1
  = console q ++ match (show_data b1 b2 data q).2 with
                 | None => [Logged "Status loaded successfully:" (Some data)]
                 | Some _ => []
                 end.
Proof.
  intros Hq. unfold show_data, showStatus_value, showStatus.
  destruct b1, b2; repeat case_match; simplify_eq;
    cbn [fst snd document children console]; page_lookup;
    rewrite ?app_nil_r; done.
Qed.

Lemma show_error_closing b2 error q :
  children (show_error true b2 error q) !! "server-status"
  = Some [Span "Error"; Button "Retry" "retry-button" Reload] /\
  console (show_error true b2 error q)
  = console q ++ [Failed "Failed to load status after retries:" error].
Proof. by destruct b2; page_lookup. Qed.

Lemma retry_calls_parse evs response :
  retry_calls (evs ++ [EvJson response]) = retry_calls evs.
Proof. unfold retry_calls. by rewrite omap_app, app_nil_r. Qed.

End ConsoleFacts.

(** X23: each call of [loadStatus] on a page with the status element ends
    with exactly one closing line on the console, after one line for each
    retry: either the success line with the payload, and then the status
    element has no child, or the failure line with the error, and then the
    status element has the word Error and the Retry button as its children.
    Never both lines, and never neither. *)
Theorem loadStatus_closing_line fetch (p : Page.State) status_element :
  Page.document p !! "server-status" = Some status_element ->
  let result := Page.loadStatus fetch p in
  exists closing,
    Page.console result.2
    = Page.console p ++ (Page.retry_entry <$> retry_calls result.1)
      ++ [closing] /\
    ((exists data,
        closing = Page.Logged "Status loaded successfully:" (Some data) /\
        Page.children result.2 !! "server-status" = None) \/
     (exists error,
        closing = Page.Failed "Failed to load status after retries:" error /\
        Page.children result.2 !! "server-status"
        = Some [Page.Span "Error";
                Page.Button "Retry" "retry-button" Page.Reload])).
Proof.
  intros Hstatus result. subst result. rewrite loadStatus_unfold.
  assert (Hb1 : Page.present "server-status" p = true)
    by (unfold Page.present; by rewrite Hstatus).
  rewrite Hb1.
  set (b2 := Page.present "server-version" p).
  set (fetched := fetchWithRetry _ _ _ _ _).
  assert (Hloading : Page.children (Page.show_loading true b2 p)
                       !! "server-status" = None
                     /\ Page.console (Page.show_loading true b2 p)
                        = Page.console p)
    by (by destruct b2; page_lookup).
  destruct Hloading as [Hchildren Hconsole].
  pose proof (retries_no_child (retry_calls (events fetched)) _ Hchildren)
    as Hno_child.
  pose proof (retries_console (retry_calls (events fetched))
                (Page.show_loading true b2 p)) as Hlines.
  rewrite Hconsole in Hlines.
  set (retried := foldl _ _ _) in *.
  assert (Herror : forall error q,
    Page.console q
    = Page.console p ++ (Page.retry_entry <$> retry_calls (events fetched)) ->
    exists closing,
      Page.console (Page.show_error true b2 error q)
      = Page.console p ++ (Page.retry_entry <$> retry_calls (events fetched))
        ++ [closing] /\
      ((exists data,
          closing = Page.Logged "Status loaded successfully:" (Some data) /\
          Page.children (Page.show_error true b2 error q) !! "server-status"
          = None) \/
       (exists error',
          closing = Page.Failed "Failed to load status after retries:" error' /\
          Page.children (Page.show_error true b2 error q) !! "server-status"
          = Some [Page.Span "Error";
                  Page.Button "Retry" "retry-button" Page.Reload]))).
  { intros error q Hq.
    destruct (show_error_closing b2 error q) as [Hshown Hline].
    eexists. rewrite Hline, Hq, <- app_assoc. split; [done |].
    right. by eexists. }
  destruct (outcome fetched) as [response | error]; cbn [fst snd];
    [rewrite retry_calls_parse | by apply Herror].
  destruct (json response) as [data | error]; [| by apply Herror].
  destruct (show_data_closing true b2 data retried Hno_child)
    as [Hshown Hline].
  destruct (Page.show_data true b2 data retried).2 as [error |].
  - apply Herror. by rewrite Hline, app_nil_r.
  - eexists. rewrite Hline, Hlines, <- app_assoc. split; [done |].
    left. by eexists.
Qed.

Lemma loadStatus_closing_line_witness :
  let result := Page.loadStatus (answers [500; 502] 200) status_page in
  exists closing,
    Page.console result.2
    = Page.console status_page
      ++ (Page.retry_entry <$> retry_calls result.1) ++ [closing] /\
    ((exists data,
        closing = Page.Logged "Status loaded successfully:" (Some data) /\
        Page.children result.2 !! "server-status" = None) \/
     (exists error,
        closing = Page.Failed "Failed to load status after retries:" error /\
        Page.children result.2 !! "server-status"
        = Some [Page.Span "Error";
                Page.Button "Retry" "retry-button" Page.Reload])).
Proof.
  apply (loadStatus_closing_line (answers [500; 502] 200) status_page
           {| Dom.textContent := "Checking";
              Dom.classList := ["value"; "status-ok"] |}).
  reflexivity.
Defined.
